(** * Shallow embedding of [GroqModel] (src/app/llm/model/model.py)

    The class keeps an ordered list of API keys, a cursor into it, a
    per-key usage dictionary and one ChatGroq client bound to the
    current key.  Python exceptions are modelled by [exn]; methods are
    functions in a state-and-exception monad over the object's fields,
    where a raised exception keeps the mutations done before it.

    Two environment variables are read: [GROQ_API_KEYS] by [__init__],
    and [GROQ_API_KEY] by the groq client that [ChatGroq] builds when it
    is given no usable key; both are explicit inputs ([raw_keys] and
    [groq_env]).  The ChatGroq client's token counter and its [ainvoke]
    are external collaborators and are section variables.  The [print]
    calls are diagnostics only and are not modelled. *)

From Stdlib Require Import ZArith Lia Ascii String.
From stdpp Require Import base list gmap strings.

Open Scope Z_scope.

(** ** Python values *)

(** Exceptions the class can raise or let through. *)
Inductive exn :=
| ValueError (msg : string)
| KeyError (key : string)
| IndexError
| ZeroDivisionError
| GroqError (msg : string)
| ProviderError (detail : string).

(** [langchain_core.messages]: the two message kinds [chat] builds. *)
Inductive message :=
| SystemMessage (content : string)
| HumanMessage (content : string).

(** A ChatGroq client: its model and the API key it sends. *)
Record Client := mkClient {
  client_model : string;
  client_key : string
}.

(** The fields of a [GroqModel] object. *)
Record GroqModel := mkGroqModel {
  api_keys : list string;
  current_index : nat;
  model_name : string;
  context_limit : Z;
  client : Client;
  usage_tracker : gmap string Z
}.

Definition set_current_index (i : nat) (s : GroqModel) : GroqModel :=
  mkGroqModel (api_keys s) i (model_name s) (context_limit s)
    (client s) (usage_tracker s).

Definition set_client (c : Client) (s : GroqModel) : GroqModel :=
  mkGroqModel (api_keys s) (current_index s) (model_name s)
    (context_limit s) c (usage_tracker s).

Definition set_usage_tracker (u : gmap string Z) (s : GroqModel) : GroqModel :=
  mkGroqModel (api_keys s) (current_index s) (model_name s)
    (context_limit s) (client s) u.

(** ** Python string methods

    A character is an [Ascii.ascii], read as a code point below 256. *)

(** [str.isspace] on one character: \t \n \v \f \r, the separators
    \x1c-\x1f, the space, \x85 (next line) and \xa0 (no-break space). *)
Definition is_space (c : Ascii.ascii) : bool :=
  let n := Ascii.nat_of_ascii c in
  ((9 <=? n) && (n <=? 13))%nat || ((28 <=? n) && (n <=? 32))%nat
  || (n =? 133)%nat || (n =? 160)%nat.

(** [s.split(",")]: every comma separates two (possibly empty) pieces. *)
Fixpoint split_comma (s : string) : list string :=
  match s with
  | EmptyString => [EmptyString]
  | String c rest =>
      let parts := split_comma rest in
      if Ascii.eqb c ","%char then EmptyString :: parts
      else match parts with
           | p :: ps => String c p :: ps
           | [] => [String c EmptyString]
           end
  end.

Fixpoint lstrip (s : string) : string :=
  match s with
  | String c rest => if is_space c then lstrip rest else s
  | EmptyString => EmptyString
  end.

Fixpoint rstrip (s : string) : string :=
  match s with
  | EmptyString => EmptyString
  | String c rest =>
      match rstrip rest with
      | EmptyString => if is_space c then EmptyString else String c EmptyString
      | r => String c r
      end
  end.

(** [s.strip()]. *)
Definition strip (s : string) : string := rstrip (lstrip s).

(** [s.split()]: the maximal runs of non-whitespace characters. *)
Fixpoint split_ws (s : string) : list string :=
  match s with
  | EmptyString => []
  | String c rest =>
      let ws := split_ws rest in
      if is_space c then ws
      else match rest with
           | String c' _ =>
               if is_space c' then String c EmptyString :: ws
               else match ws with
                    | w :: ws' => String c w :: ws'
                    | [] => [String c EmptyString]
                    end
           | EmptyString => [String c EmptyString]
           end
  end.

(** [len(s.split())]. *)
Definition word_count (s : string) : Z := Z.of_nat (length (split_ws s)).

(** ** A state-and-exception monad for the methods *)

Definition M (A : Type) : Type := GroqModel -> (exn + A) * GroqModel.

Definition mret_M {A} (a : A) : M A := fun s => (inr a, s).

Definition mbind_M {A B} (m : M A) (f : A -> M B) : M B :=
  fun s => match m s with
           | (inl e, s') => (inl e, s')
           | (inr a, s') => f a s'
           end.

Definition raise {A} (e : exn) : M A := fun s => (inl e, s).
Definition get_self : M GroqModel := fun s => (inr s, s).
Definition modify (f : GroqModel -> GroqModel) : M unit :=
  fun s => (inr tt, f s).

Declare Scope py_scope.
Delimit Scope py_scope with py.
Notation "'let!' x := m 'in' k" := (mbind_M m (fun x => k))
  (at level 200, x binder, m at level 100, k at level 200) : py_scope.
Open Scope py_scope.

(** [l[i]] for a list of keys. *)
Definition list_get (l : list string) (i : nat) : M string :=
  fun s => match l !! i with
           | Some x => (inr x, s)
           | None => (inl IndexError, s)
           end.

(** [self.usage_tracker[k]]. *)
Definition usage_get (k : string) : M Z :=
  fun s => match usage_tracker s !! k with
           | Some v => (inr v, s)
           | None => (inl (KeyError k), s)
           end.

(** ** The ChatGroq constructor *)

(** The message of the [GroqError] the groq client raises without a key. *)
Definition groq_missing_key_msg : string :=
  "The api_key client option must be set either by passing api_key to the client or by setting the GROQ_API_KEY environment variable".

(** [ChatGroq(model=model, groq_api_key=key)], where [groq_env] is
    [os.environ.get("GROQ_API_KEY")].  langchain_groq hands the key to
    the groq client only when it is truthy: an empty key becomes
    [api_key=None], and the groq client then reads [GROQ_API_KEY],
    raising [GroqError] when it is unset. *)
Definition ChatGroq (groq_env : option string) (model key : string)
  : exn + Client :=
  match key with
  | EmptyString =>
      match groq_env with
      | Some env_key => inr (mkClient model env_key)
      | None => inl (GroqError groq_missing_key_msg)
      end
  | String _ _ => inr (mkClient model key)
  end.

(** ** The methods *)

(** [_init_client(key)]. *)
Definition _init_client (groq_env : option string) (key : string) : M Client :=
  fun s => match ChatGroq groq_env (model_name s) key with
           | inl e => (inl e, s)
           | inr c => (inr c, s)
           end.

(** [__init__], with [os.getenv("GROQ_API_KEYS")] after [load_dotenv()]
    as [raw_keys]; an exception raised while building the first client
    aborts the construction. *)
Definition __init__ (groq_env : option string) (raw_keys : option string)
  : exn + GroqModel :=
  match raw_keys with
  | None | Some EmptyString =>
      inl (ValueError "GROQ_API_KEYS not found in environment variables.")
  | Some raw =>
      let keys := map strip (split_comma raw) in
      let name := "llama-3.1-70b-versatile" in
      match keys !! 0%nat with
      | None => inl IndexError
      | Some k0 =>
          match ChatGroq groq_env name k0 with
          | inl e => inl e
          | inr c =>
              inr (mkGroqModel keys 0 name 8192 c
                     (list_to_map (map (fun k => (k, 0)) keys)))
          end
      end
  end.

(** [_switch_key()]. *)
Definition _switch_key (groq_env : option string) : M unit :=
  let! s := get_self in
  let! old_key := list_get (api_keys s) (current_index s) in
  let n := length (api_keys s) in
  let! _ := (if (n =? 0)%nat then raise ZeroDivisionError
     else modify (set_current_index ((current_index s + 1) mod n))) in
  let! s1 := get_self in
  let! new_key := list_get (api_keys s1) (current_index s1) in
  let! c := _init_client groq_env new_key in
  modify (set_client c).

(** [_check_and_switch_key()]. *)
Definition _check_and_switch_key (groq_env : option string) : M unit :=
  let! s := get_self in
  let! current_key := list_get (api_keys s) (current_index s) in
  let! used_tokens := usage_get current_key in
  let remaining_quota := 1000000 - used_tokens in
  if remaining_quota <? 3000 then _switch_key groq_env else mret_M tt.

(** The messages [chat] builds: [if system_prompt:] is false for
    [None] and for the empty string. *)
Definition chat_messages (prompt : string) (system_prompt : option string)
  : list message :=
  match system_prompt with
  | Some sp => if String.eqb sp EmptyString then [] else [SystemMessage sp]
  | None => []
  end ++ [HumanMessage prompt].

Section Delegate.

Variable groq_env : option string.
(** [client.get_num_tokens_from_messages]. *)
Variable num_tokens : Client -> list message -> Z.
(** [client.ainvoke]: the response content or the provider's exception. *)
Variable ainvoke : Client -> list message -> exn + string.

(** [get_token_count(messages)]. *)
Definition get_token_count (messages : list message) : M Z :=
  let! s := get_self in mret_M (num_tokens (client s) messages).

(** [get_remaining_tokens(messages)]. *)
Definition get_remaining_tokens (messages : list message) : M Z :=
  let! used := get_token_count messages in
  let! s := get_self in
  mret_M (context_limit s - used).

Definition ainvoke_M (c : Client) (messages : list message) : M string :=
  fun s => match ainvoke c messages with
           | inl e => (inl e, s)
           | inr r => (inr r, s)
           end.

(** [chat(prompt, system_prompt)]. *)
Definition chat (prompt : string) (system_prompt : option string) : M string :=
  let messages := chat_messages prompt system_prompt in
  let! used := get_token_count messages in
  let! remaining := get_remaining_tokens messages in
  let! _ := _check_and_switch_key groq_env in
  let! s := get_self in
  let! response := ainvoke_M (client s) messages in
  let! s1 := get_self in
  let! current_key := list_get (api_keys s1) (current_index s1) in
  let! old := usage_get current_key in
  let! _ := modify (fun s2 => set_usage_tracker
            (<[current_key := old + (used + word_count response)]>
               (usage_tracker s2)) s2) in
  mret_M response.

End Delegate.

(** ** Sanity checks of the string helpers *)

Example split_comma_strip_ex :
  map strip (split_comma " a , b,,c ") = ["a"; "b"; ""; "c"].
Proof. reflexivity. Qed.

Example split_ws_ex :
  split_ws "  Gravity pulls  masses together. "
  = ["Gravity"; "pulls"; "masses"; "together."].
Proof. reflexivity. Qed.

(** ** Rotation *)

Ltac py_unfold :=
  unfold mbind_M, mret_M, get_self, modify, raise, list_get, usage_get,
    ainvoke_M, _init_client in *;
  cbv beta iota zeta in *.

Ltac py_case :=
  match goal with
  | |- context [match ?x with _ => _ end] =>
      lazymatch x with
      | context [match _ with _ => _ end] => fail
      | _ => destruct x eqn:?
      end
  end.

(** The cursor move of [_switch_key]. *)
Definition advance (s : GroqModel) : GroqModel :=
  set_current_index ((current_index s + 1) mod length (api_keys s)) s.

Lemma ChatGroq_key (groq_env : option string) (model key : string) :
  key <> EmptyString -> ChatGroq groq_env model key = inr (mkClient model key).
Proof. destruct key; [congruence|reflexivity]. Qed.

Lemma ChatGroq_error (groq_env : option string) (model key : string) (e : exn) :
  ChatGroq groq_env model key = inl e ->
  key = EmptyString /\ groq_env = None /\ e = GroqError groq_missing_key_msg.
Proof.
  destruct key; [|discriminate].
  destruct groq_env; [discriminate|]. intros H. injection H as <-. auto.
Qed.

Lemma next_index_in_range (l : list string) (i : nat) k :
  l !! i = Some k ->
  exists k', l !! ((i + 1) mod length l)%nat = Some k'.
Proof.
  intros Hk. apply lookup_lt_is_Some_2.
  assert (length l <> 0)%nat.
  { apply lookup_lt_Some in Hk. lia. }
  apply Nat.mod_upper_bound. lia.
Qed.

(** [_switch_key] moves the cursor, then builds the client for the key
    there: on success the client is replaced, otherwise the exception
    propagates with the cursor moved and the old client kept. *)
Lemma switch_key_step (groq_env : option string) (s : GroqModel) k :
  api_keys s !! current_index s = Some k ->
  exists k',
    api_keys s !! ((current_index s + 1) mod length (api_keys s))%nat = Some k' /\
    _switch_key groq_env s =
    match ChatGroq groq_env (model_name s) k' with
    | inl e => (inl e, advance s)
    | inr c => (inr tt, set_client c (advance s))
    end.
Proof.
  intros Hk.
  destruct (next_index_in_range _ _ _ Hk) as [k' Hk'].
  exists k'. split; [exact Hk'|].
  assert (Hn : length (api_keys s) <> 0%nat).
  { apply lookup_lt_Some in Hk. lia. }
  unfold _switch_key, _init_client, mbind_M, get_self, list_get. rewrite Hk.
  simpl. apply Nat.eqb_neq in Hn. rewrite Hn. simpl.
  unfold modify, set_current_index. simpl. rewrite Hk'. cbn [model_name].
  destruct (ChatGroq groq_env (model_name s) k'); reflexivity.
Qed.

(** [n] calls of [_switch_key] made one after the other by a caller,
    each on the object the previous one left, whether it raised or not. *)
Fixpoint switch_calls (groq_env : option string) (n : nat) (s : GroqModel)
  : GroqModel :=
  match n with
  | O => s
  | S n' => switch_calls groq_env n' (snd (_switch_key groq_env s))
  end.

(** [n] consecutive calls of [_switch_key] in one computation, which
    stops at the first exception. *)
Fixpoint switch_n (groq_env : option string) (n : nat) : M unit :=
  match n with
  | O => mret_M tt
  | S n' => let! _ := _switch_key groq_env in switch_n groq_env n'
  end.

Lemma switch_calls_spec (groq_env : option string) (m : nat) :
  forall (s : GroqModel),
  (current_index s < length (api_keys s))%nat ->
  current_index (switch_calls groq_env m s)
    = ((current_index s + m) mod length (api_keys s))%nat /\
  api_keys (switch_calls groq_env m s) = api_keys s /\
  model_name (switch_calls groq_env m s) = model_name s /\
  ((forall k, k ∈ api_keys s ->
      exists c, ChatGroq groq_env (model_name s) k = inr c) ->
   switch_n groq_env m s = (inr tt, switch_calls groq_env m s)).
Proof.
  induction m as [|m IH]; intros s Hlt.
  - cbn [switch_calls switch_n].
    rewrite Nat.add_0_r, Nat.mod_small by exact Hlt. auto.
  - destruct (lookup_lt_is_Some_2 _ _ Hlt) as [k Hk].
    destruct (switch_key_step groq_env s k Hk) as [k' [Hk' Hsw]].
    assert (Hn : length (api_keys s) <> 0%nat) by lia.
    assert (Hs1 : api_keys (snd (_switch_key groq_env s)) = api_keys s /\
                  model_name (snd (_switch_key groq_env s)) = model_name s /\
                  current_index (snd (_switch_key groq_env s))
                  = ((current_index s + 1) mod length (api_keys s))%nat).
    { rewrite Hsw. destruct (ChatGroq groq_env (model_name s) k'); auto. }
    destruct Hs1 as (Hk1 & Hm1 & Hi1).
    assert (Hlt1 : (current_index (snd (_switch_key groq_env s))
                    < length (api_keys (snd (_switch_key groq_env s))))%nat).
    { rewrite Hi1, Hk1. apply Nat.mod_upper_bound. exact Hn. }
    destruct (IH _ Hlt1) as (Hidx & Hkeys & Hname & Hrun).
    cbn [switch_calls].
    split; [rewrite Hidx, Hi1, Hk1, Nat.Div0.add_mod_idemp_l; f_equal; lia|].
    split; [congruence|]. split; [congruence|].
    intros Hall. cbn [switch_n]. unfold mbind_M at 1.
    destruct (Hall k' (list_elem_of_lookup_2 _ _ _ Hk')) as [c Hc].
    assert (Es : _switch_key groq_env s = (inr tt, set_client c (advance s)))
      by (rewrite Hsw, Hc; reflexivity).
    rewrite Es. rewrite Es in Hrun. apply Hrun.
    rewrite Es in Hk1, Hm1. rewrite Hk1, Hm1. exact Hall.
Qed.

(** ** Concrete objects used by the examples *)

Definition groq_model_name : string := "llama-3.1-70b-versatile".

(** The object [__init__] builds from [GROQ_API_KEYS="keyA,keyB"]. *)
Definition state_AB : GroqModel :=
  mkGroqModel ["keyA"; "keyB"] 0 groq_model_name 8192
    (mkClient groq_model_name "keyA")
    (list_to_map [("keyA", 0); ("keyB", 0)]).

Lemma init_AB (groq_env : option string) :
  __init__ groq_env (Some "keyA,keyB") = inr state_AB.
Proof. reflexivity. Qed.

(** [state_AB] after [usage_tracker["keyA"] = 999_000]. *)
Definition state_AB_low : GroqModel :=
  set_usage_tracker (<["keyA" := 999000]> (usage_tracker state_AB)) state_AB.

(** The object [__init__] builds from [GROQ_API_KEYS="onlyKey"]. *)
Definition state_only : GroqModel :=
  mkGroqModel ["onlyKey"] 0 groq_model_name 8192
    (mkClient groq_model_name "onlyKey")
    (list_to_map [("onlyKey", 0)]).

Lemma init_only (groq_env : option string) :
  __init__ groq_env (Some "onlyKey") = inr state_only.
Proof. reflexivity. Qed.

(** The object [__init__] builds from [GROQ_API_KEYS="keyA,"]: the
    trailing comma gives an empty second key. *)
Definition state_A_empty : GroqModel :=
  mkGroqModel ["keyA"; ""] 0 groq_model_name 8192
    (mkClient groq_model_name "keyA")
    (list_to_map [("keyA", 0); ("", 0)]).

Lemma init_A_empty (groq_env : option string) :
  __init__ groq_env (Some "keyA,") = inr state_A_empty.
Proof. reflexivity. Qed.

(** [state_A_empty] after [usage_tracker["keyA"] = 999_000]. *)
Definition state_A_empty_low : GroqModel :=
  set_usage_tracker (<["keyA" := 999000]> (usage_tracker state_A_empty))
    state_A_empty.

(** ** The quota check *)

Lemma check_step (groq_env : option string) (s : GroqModel) (k : string) (u : Z) :
  api_keys s !! current_index s = Some k ->
  usage_tracker s !! k = Some u ->
  if 1000000 - u <? 3000 then
    exists k',
      api_keys s !! ((current_index s + 1) mod length (api_keys s))%nat = Some k' /\
      _check_and_switch_key groq_env s =
      match ChatGroq groq_env (model_name s) k' with
      | inl e => (inl e, advance s)
      | inr c => (inr tt, set_client c (advance s))
      end
  else _check_and_switch_key groq_env s = (inr tt, s).
Proof.
  intros Hk Hu.
  unfold _check_and_switch_key, mbind_M, get_self, list_get, usage_get.
  rewrite Hk. unfold mret_M. cbv beta iota. rewrite Hu.
  cbv beta iota. destruct (1000000 - u <? 3000); [|reflexivity].
  exact (switch_key_step groq_env s k Hk).
Qed.

(** C1 (counterexample): with [GROQ_API_KEYS="keyA,"], [GROQ_API_KEY]
    unset and "keyA" low, the check moves the cursor to the empty key,
    [ChatGroq] raises [GroqError] and the client stays bound to "keyA":
    it is not rebuilt for the new key. *)
Lemma check_and_switch_key_empty_key_raises :
  __init__ None (Some "keyA,") = inr state_A_empty /\
  _check_and_switch_key None state_A_empty_low
  = (inl (GroqError groq_missing_key_msg), set_current_index 1 state_A_empty_low) /\
  client (set_current_index 1 state_A_empty_low) = mkClient groq_model_name "keyA".
Proof. split; [reflexivity|]. split; reflexivity. Qed.

(** C1 (amended): [_check_and_switch_key] computes
    [1_000_000 - usage[current key]].  When this is below 3000 it moves
    the cursor to [(current_index + 1) mod len(api_keys)] and builds the
    client for the key [k'] there: for a non-empty [k'] the client is
    replaced by one bound to [k']; for an empty [k'] it is bound to
    [GROQ_API_KEY] when that is set, and otherwise [GroqError] is raised
    with the cursor moved and the old client kept.  Otherwise the object
    is unchanged.  The usage counters are never touched. *)
Theorem check_and_switch_key_spec (groq_env : option string) (s : GroqModel)
    (k : string) (u : Z) :
  api_keys s !! current_index s = Some k ->
  usage_tracker s !! k = Some u ->
  if 1000000 - u <? 3000 then
    exists k',
      api_keys s !! ((current_index s + 1) mod length (api_keys s))%nat = Some k' /\
      usage_tracker (advance s) = usage_tracker s /\
      match k', groq_env with
      | EmptyString, None =>
          _check_and_switch_key groq_env s
          = (inl (GroqError groq_missing_key_msg), advance s) /\
          client (advance s) = client s
      | EmptyString, Some env_key =>
          _check_and_switch_key groq_env s
          = (inr tt, set_client (mkClient (model_name s) env_key) (advance s))
      | _, _ =>
          _check_and_switch_key groq_env s
          = (inr tt, set_client (mkClient (model_name s) k') (advance s))
      end
  else _check_and_switch_key groq_env s = (inr tt, s).
Proof.
  intros Hk Hu. pose proof (check_step groq_env s k u Hk Hu) as Hc.
  destruct (1000000 - u <? 3000); [|exact Hc].
  destruct Hc as [k' [Hk' Hrun]]. exists k'.
  split; [exact Hk'|]. split; [reflexivity|].
  destruct k' as [|a k'']; [destruct groq_env as [ek|]|]; exact Hrun || auto.
Qed.

Lemma check_and_switch_key_spec_witness :
  api_keys state_AB_low !! current_index state_AB_low = Some "keyA" /\
  usage_tracker state_AB_low !! "keyA" = Some 999000 /\
  (if 1000000 - 999000 <? 3000 then
    exists k',
      api_keys state_AB_low !! ((current_index state_AB_low + 1)
                                  mod length (api_keys state_AB_low))%nat = Some k' /\
      usage_tracker (advance state_AB_low) = usage_tracker state_AB_low /\
      match k', (None : option string) with
      | EmptyString, None =>
          _check_and_switch_key None state_AB_low
          = (inl (GroqError groq_missing_key_msg), advance state_AB_low) /\
          client (advance state_AB_low) = client state_AB_low
      | EmptyString, Some env_key =>
          _check_and_switch_key None state_AB_low
          = (inr tt, set_client (mkClient (model_name state_AB_low) env_key)
                       (advance state_AB_low))
      | _, _ =>
          _check_and_switch_key None state_AB_low
          = (inr tt, set_client (mkClient (model_name state_AB_low) k')
                       (advance state_AB_low))
      end
  else _check_and_switch_key None state_AB_low = (inr tt, state_AB_low)).
Proof.
  split; [reflexivity|]. split; [reflexivity|].
  apply (check_and_switch_key_spec None state_AB_low "keyA" 999000); reflexivity.
Defined.

(** [_switch_key] and [_check_and_switch_key] only touch the cursor and
    the client. *)
Lemma check_and_switch_key_frame (groq_env : option string) (s s1 : GroqModel) r :
  _check_and_switch_key groq_env s = (r, s1) ->
  api_keys s1 = api_keys s /\ usage_tracker s1 = usage_tracker s /\
  model_name s1 = model_name s /\ context_limit s1 = context_limit s.
Proof.
  unfold _check_and_switch_key, _switch_key. py_unfold.
  repeat (py_case; py_unfold); intros H; inversion H; subst; simpl; auto.
Qed.

(** Well-formed objects: cursor in range and every key in the usage
    dictionary. *)
Definition wf (s : GroqModel) : Prop :=
  (current_index s < length (api_keys s))%nat /\
  forall (i : nat) (k : string), api_keys s !! i = Some k ->
    is_Some (usage_tracker s !! k).

Lemma advance_wf (s : GroqModel) (c : Client) :
  wf s -> wf (advance s) /\ wf (set_client c (advance s)).
Proof.
  intros [Hlt Hdom].
  assert (Hn : length (api_keys s) <> 0%nat) by lia.
  split; split; try exact Hdom; simpl; apply Nat.mod_upper_bound; exact Hn.
Qed.

(** On a well-formed object the check raises at most the [GroqError] of
    the client it builds, and leaves a well-formed object. *)
Lemma check_and_switch_key_wf (groq_env : option string) (s : GroqModel) :
  wf s ->
  exists r s1, _check_and_switch_key groq_env s = (r, s1) /\ wf s1 /\
    (r = inr tt \/ r = inl (GroqError groq_missing_key_msg)).
Proof.
  intros Hwf. pose proof Hwf as [Hlt Hdom].
  destruct (lookup_lt_is_Some_2 _ _ Hlt) as [k Hk].
  destruct (Hdom _ _ Hk) as [u Hu].
  pose proof (check_step groq_env s k u Hk Hu) as Hc.
  destruct (1000000 - u <? 3000).
  - destruct Hc as [k' (Hk' & Hrun)].
    destruct (ChatGroq groq_env (model_name s) k') as [e|c] eqn:Hg.
    + exists (inl e), (advance s). split; [exact Hrun|].
      split; [exact (proj1 (advance_wf s (client s) Hwf))|].
      right. destruct (ChatGroq_error _ _ _ _ Hg) as (_ & _ & ->). reflexivity.
    + exists (inr tt), (set_client c (advance s)). split; [exact Hrun|].
      split; [exact (proj2 (advance_wf s c Hwf))|]. left. reflexivity.
  - exists (inr tt), s. auto.
Qed.

Lemma check_and_switch_key_wf_any (groq_env : option string) (s s1 : GroqModel) r :
  wf s -> _check_and_switch_key groq_env s = (r, s1) -> wf s1.
Proof.
  intros Hwf Hc.
  destruct (check_and_switch_key_wf groq_env s Hwf) as (r2 & s2 & Hc2 & Hwf2 & _).
  rewrite Hc in Hc2. injection Hc2 as _ <-. exact Hwf2.
Qed.

(** When a client can be built for every key, the check on a
    well-formed object raises nothing, and either keeps the object or
    rotates to the next key with its client. *)
Lemma check_built (groq_env : option string) (s : GroqModel) :
  wf s ->
  (forall k, k ∈ api_keys s -> exists c, ChatGroq groq_env (model_name s) k = inr c) ->
  exists s1, _check_and_switch_key groq_env s = (inr tt, s1) /\
    (s1 = s \/ exists k' c,
       api_keys s !! ((current_index s + 1) mod length (api_keys s))%nat = Some k' /\
       ChatGroq groq_env (model_name s) k' = inr c /\
       s1 = set_client c (advance s)).
Proof.
  intros [Hlt Hdom] Hall.
  destruct (lookup_lt_is_Some_2 _ _ Hlt) as [k Hk].
  destruct (Hdom _ _ Hk) as [u Hu].
  pose proof (check_step groq_env s k u Hk Hu) as Hc.
  destruct (1000000 - u <? 3000).
  - destruct Hc as [k' (Hk' & Hrun)].
    destruct (Hall k' (list_elem_of_lookup_2 _ _ _ Hk')) as [c Hg].
    rewrite Hg in Hrun. exists (set_client c (advance s)).
    split; [exact Hrun|]. right. eauto.
  - exists s. auto.
Qed.

(** ** [chat] *)

Section ChatFacts.

Variable groq_env : option string.
Variable num_tokens : Client -> list message -> Z.
Variable ainvoke : Client -> list message -> exn + string.

(** When the quota check raises, [chat] raises the same exception and
    never reaches the delegate. *)
Lemma chat_check_raises (s s1 : GroqModel) prompt sp e :
  _check_and_switch_key groq_env s = (inl e, s1) ->
  chat groq_env num_tokens ainvoke prompt sp s = (inl e, s1).
Proof.
  intros Hc.
  unfold chat, get_remaining_tokens, get_token_count. py_unfold.
  rewrite Hc. reflexivity.
Qed.

(** Once the quota check has succeeded, [chat] is one delegate call on
    the client the check left, followed on success by the usage update
    of the key under the cursor. *)
Lemma chat_step (s s1 : GroqModel) prompt sp k u :
  _check_and_switch_key groq_env s = (inr tt, s1) ->
  api_keys s1 !! current_index s1 = Some k ->
  usage_tracker s1 !! k = Some u ->
  chat groq_env num_tokens ainvoke prompt sp s =
  match ainvoke (client s1) (chat_messages prompt sp) with
  | inl e => (inl e, s1)
  | inr r =>
      (inr r, set_usage_tracker
                (<[k := u + (num_tokens (client s) (chat_messages prompt sp)
                             + word_count r)]> (usage_tracker s1)) s1)
  end.
Proof.
  intros Hc Hk Hu.
  unfold chat, get_remaining_tokens, get_token_count. py_unfold.
  rewrite Hc. destruct (ainvoke (client s1) (chat_messages prompt sp)).
  - reflexivity.
  - rewrite Hk, Hu. reflexivity.
Qed.

(** Whatever its outcome, [chat] leaves either the state of the quota
    check, or that state with one usage entry written. *)
Lemma chat_frame (s s' : GroqModel) prompt sp r :
  chat groq_env num_tokens ainvoke prompt sp s = (r, s') ->
  exists s1 r1,
    _check_and_switch_key groq_env s = (r1, s1) /\
    (s' = s1 \/ exists k v,
        s' = set_usage_tracker (<[k := v]> (usage_tracker s1)) s1).
Proof.
  intros H.
  unfold chat, get_remaining_tokens, get_token_count in H. py_unfold.
  destruct (_check_and_switch_key groq_env s) as [[e|[]] s1] eqn:Hc.
  - injection H as _ <-. eauto.
  - exists s1, (inr tt). split; [reflexivity|].
    destruct (ainvoke (client s1) (chat_messages prompt sp)) as [e|resp];
      cbv beta iota in H.
    + injection H as _ <-. auto.
    + destruct (api_keys s1 !! current_index s1) as [key|]; cbv beta iota in H;
        [|injection H as _ <-; auto].
      destruct (usage_tracker s1 !! key); cbv beta iota in H;
        [|injection H as _ <-; auto].
      injection H as _ <-. right. eauto.
Qed.

Lemma chat_preserves (s s' : GroqModel) prompt sp r :
  chat groq_env num_tokens ainvoke prompt sp s = (r, s') ->
  api_keys s' = api_keys s /\ model_name s' = model_name s /\
  context_limit s' = context_limit s /\ (wf s -> wf s').
Proof.
  intros H. destruct (chat_frame _ _ _ _ _ H) as [s1 [r1 [Hc Hs']]].
  destruct (check_and_switch_key_frame _ _ _ _ Hc) as (Hkeys & _ & Hname & Hctx).
  pose proof (check_and_switch_key_wf_any groq_env s s1 r1) as Hwf1.
  destruct Hs' as [-> | (k & v & ->)].
  - do 3 (split; [assumption|]). exact (fun Hwf => Hwf1 Hwf Hc).
  - simpl. do 3 (split; [assumption|]).
    intros Hwf. destruct (Hwf1 Hwf Hc) as [Hlt Hdom]. split; [exact Hlt|].
    intros i k' Hk'. apply lookup_insert_is_Some'. right. exact (Hdom _ _ Hk').
Qed.

(** A successful [chat] went through the check, the delegate and the
    usage update. *)
Lemma chat_success_inv (s s' : GroqModel) prompt sp r :
  chat groq_env num_tokens ainvoke prompt sp s = (inr r, s') ->
  exists s1 k u,
    _check_and_switch_key groq_env s = (inr tt, s1) /\
    api_keys s1 !! current_index s1 = Some k /\
    usage_tracker s1 !! k = Some u /\
    ainvoke (client s1) (chat_messages prompt sp) = inr r /\
    s' = set_usage_tracker
           (<[k := u + (num_tokens (client s) (chat_messages prompt sp)
                        + word_count r)]> (usage_tracker s1)) s1.
Proof.
  intros H.
  unfold chat, get_remaining_tokens, get_token_count in H. py_unfold.
  destruct (_check_and_switch_key groq_env s) as [[e|[]] s1] eqn:Hc;
    cbv beta iota in H; [discriminate|].
  destruct (ainvoke (client s1) (chat_messages prompt sp)) as [e|resp] eqn:Ha;
    cbv beta iota in H; [discriminate|].
  destruct (api_keys s1 !! current_index s1) as [k|] eqn:Hk;
    cbv beta iota in H; [|discriminate].
  destruct (usage_tracker s1 !! k) as [u|] eqn:Hu;
    cbv beta iota in H; [|discriminate].
  injection H as <- <-. exists s1, k, u. auto.
Qed.

(** A [chat] that raises leaves the object as the quota check left it. *)
Lemma chat_fail_state (s s' : GroqModel) prompt sp e :
  chat groq_env num_tokens ainvoke prompt sp s = (inl e, s') ->
  exists r1, _check_and_switch_key groq_env s = (r1, s').
Proof.
  intros H.
  unfold chat, get_remaining_tokens, get_token_count in H. py_unfold.
  destruct (_check_and_switch_key groq_env s) as [[e1|[]] s1] eqn:Hc;
    cbv beta iota in H; [injection H as _ <-; eauto|].
  exists (inr tt).
  destruct (ainvoke (client s1) (chat_messages prompt sp)) as [e1|resp];
    cbv beta iota in H; [injection H as _ <-; reflexivity|].
  destruct (api_keys s1 !! current_index s1) as [k|];
    cbv beta iota in H; [|injection H as _ <-; reflexivity].
  destruct (usage_tracker s1 !! k);
    cbv beta iota in H; [discriminate|injection H as _ <-; reflexivity].
Qed.

End ChatFacts.

(** ** C2: usage accounting of a successful call *)

(** C2: after a successful [chat], the usage entry of the key under the
    cursor after the quota check grows by the token estimate of the
    messages (taken with the client from before the check) plus the word
    count of the response; no other entry changes.  When the check did
    not rotate, that key is the one active before the call. *)
Theorem chat_usage_update (groq_env : option string)
    (num_tokens : Client -> list message -> Z)
    (ainvoke : Client -> list message -> exn + string)
    (s s' : GroqModel) (prompt : string) (sp : option string) (r : string) :
  chat groq_env num_tokens ainvoke prompt sp s = (inr r, s') ->
  exists s1 k u,
    _check_and_switch_key groq_env s = (inr tt, s1) /\
    api_keys s1 !! current_index s1 = Some k /\
    usage_tracker s !! k = Some u /\
    usage_tracker s' =
      <[k := u + (num_tokens (client s) (chat_messages prompt sp)
                  + word_count r)]> (usage_tracker s) /\
    current_index s' = current_index s1 /\ client s' = client s1 /\
    (forall k0 u0,
       api_keys s !! current_index s = Some k0 ->
       usage_tracker s !! k0 = Some u0 ->
       3000 <= 1000000 - u0 -> s1 = s /\ k = k0).
Proof.
  intros H.
  destruct (chat_success_inv _ _ _ _ _ _ _ _ H)
    as (s1 & k & u & Hc & Hk & Hu & _ & ->).
  destruct (check_and_switch_key_frame _ _ _ _ Hc) as (_ & Hus & _).
  exists s1, k, u. rewrite Hus in Hu |- *.
  do 3 (split; [assumption|]). split; [reflexivity|].
  split; [reflexivity|]. split; [reflexivity|].
  intros k0 u0 Hk0 Hu0 Hq.
  pose proof (check_step groq_env s k0 u0 Hk0 Hu0) as Hspec.
  replace (1000000 - u0 <? 3000) with false in Hspec
    by (symmetry; apply Z.ltb_ge; lia).
  rewrite Hc in Hspec. injection Hspec as ->. rewrite Hk0 in Hk.
  injection Hk as ->. auto.
Qed.

(** A successful call from [state_AB]. *)
Definition state_AB_after_hi : GroqModel :=
  set_usage_tracker (<["keyA" := 3]> (usage_tracker state_AB)) state_AB.

Lemma chat_usage_update_witness :
  chat None (fun _ _ => 2) (fun _ _ => inr "hi") "x" None state_AB
  = (inr "hi", state_AB_after_hi) /\
  exists s1 k u,
    _check_and_switch_key None state_AB = (inr tt, s1) /\
    api_keys s1 !! current_index s1 = Some k /\
    usage_tracker state_AB !! k = Some u /\
    usage_tracker state_AB_after_hi =
      <[k := u + ((fun _ _ => 2) (client state_AB) (chat_messages "x" None)
                  + word_count "hi")]> (usage_tracker state_AB) /\
    current_index state_AB_after_hi = current_index s1 /\
    client state_AB_after_hi = client s1 /\
    (forall k0 u0,
       api_keys state_AB !! current_index state_AB = Some k0 ->
       usage_tracker state_AB !! k0 = Some u0 ->
       3000 <= 1000000 - u0 -> s1 = state_AB /\ k = k0).
Proof.
  assert (H : chat None (fun _ _ => 2) (fun _ _ => inr "hi") "x" None state_AB
              = (inr "hi", state_AB_after_hi)) by reflexivity.
  split; [exact H|].
  exact (chat_usage_update None (fun _ _ => 2) (fun _ _ => inr "hi")
           state_AB state_AB_after_hi "x" None "hi" H).
Defined.

(** ** C3: the check runs before the request *)

(** [state_AB_low] after the rotation to "keyB". *)
Definition state_AB_rotated : GroqModel :=
  set_client (mkClient groq_model_name "keyB") (set_current_index 1 state_AB_low).

(** C3: in every [chat] call the quota check runs first.  If it raises,
    [chat] raises the same exception on the object it left, whatever the
    delegate would answer: no request is sent.  If it succeeds, the only
    delegate call is on the client the check left: two delegates that
    agree on that client and the messages give the same outcome.  With
    keys ["keyA"; "keyB"] and usage["keyA"] = 999_000, [chat("hello")]
    rotates to "keyB" (cursor 1, client rebuilt for "keyB") and then
    calls the delegate on the "keyB" client; usage goes to "keyB". *)
Theorem chat_rotates_before_delegating (groq_env : option string)
    (num_tokens : Client -> list message -> Z)
    (ainvoke : Client -> list message -> exn + string)
    (s : GroqModel) (prompt : string) (sp : option string) :
  match _check_and_switch_key groq_env s with
  | (inl e, s1) =>
      forall ainvoke', chat groq_env num_tokens ainvoke' prompt sp s = (inl e, s1)
  | (inr _, s1) =>
      forall ainvoke',
        ainvoke' (client s1) (chat_messages prompt sp)
        = ainvoke (client s1) (chat_messages prompt sp) ->
        chat groq_env num_tokens ainvoke' prompt sp s
        = chat groq_env num_tokens ainvoke prompt sp s
  end /\
  client state_AB_low = mkClient groq_model_name "keyA" /\
  _check_and_switch_key groq_env state_AB_low = (inr tt, state_AB_rotated) /\
  current_index state_AB_rotated = 1%nat /\
  client state_AB_rotated = mkClient groq_model_name "keyB" /\
  chat groq_env num_tokens ainvoke "hello" None state_AB_low =
  match ainvoke (mkClient groq_model_name "keyB") [HumanMessage "hello"] with
  | inl e => (inl e, state_AB_rotated)
  | inr r =>
      (inr r, set_usage_tracker
                (<["keyB" := 0 + (num_tokens (mkClient groq_model_name "keyA")
                                    [HumanMessage "hello"] + word_count r)]>
                   (usage_tracker state_AB_rotated)) state_AB_rotated)
  end.
Proof.
  split.
  - destruct (_check_and_switch_key groq_env s) as [[e|[]] s1] eqn:Hc.
    + intros ainvoke'. exact (chat_check_raises _ _ _ _ _ _ _ _ Hc).
    + intros ainvoke' Ha.
      unfold chat, get_remaining_tokens, get_token_count. py_unfold.
      rewrite Hc, Ha. reflexivity.
  - assert (Hc : _check_and_switch_key groq_env state_AB_low
                 = (inr tt, state_AB_rotated)) by reflexivity.
    do 4 (split; [reflexivity|]).
    exact (chat_step groq_env num_tokens ainvoke state_AB_low state_AB_rotated
             "hello" None "keyB" 0 Hc eq_refl eq_refl).
Qed.

(** ** C7: no validation of the prompt *)

(** C7 (counterexample): an empty prompt is not rejected; with a delegate
    answering "ok" the call returns "ok" and records usage. *)
Lemma chat_empty_prompt_not_rejected :
  chat None (fun _ _ => 1) (fun _ _ => inr "ok") "" None state_AB =
  (inr "ok", set_usage_tracker (<["keyA" := 2]> (usage_tracker state_AB)) state_AB).
Proof. reflexivity. Qed.

(** C7 (amended): [chat] does not validate the prompt.  On a well-formed
    object whose quota check succeeds, an empty prompt is sent to the
    delegate as a [HumanMessage] with empty content on the client the
    check left; the delegate's exception propagates, and on success the
    call returns the delegate's text and records usage like any other
    call. *)
Theorem chat_empty_prompt_delegated (groq_env : option string)
    (num_tokens : Client -> list message -> Z)
    (ainvoke : Client -> list message -> exn + string)
    (s s1 : GroqModel) (sp : option string) :
  wf s ->
  _check_and_switch_key groq_env s = (inr tt, s1) ->
  exists k u,
    api_keys s1 !! current_index s1 = Some k /\
    usage_tracker s1 !! k = Some u /\
    last (chat_messages "" sp) = Some (HumanMessage "") /\
    chat groq_env num_tokens ainvoke "" sp s =
    match ainvoke (client s1) (chat_messages "" sp) with
    | inl e => (inl e, s1)
    | inr r =>
        (inr r, set_usage_tracker
                  (<[k := u + (num_tokens (client s) (chat_messages "" sp)
                               + word_count r)]> (usage_tracker s1)) s1)
    end.
Proof.
  intros Hwf Hc.
  destruct (check_and_switch_key_wf_any groq_env s s1 _ Hwf Hc) as [Hlt Hdom].
  destruct (lookup_lt_is_Some_2 _ _ Hlt) as [k Hk].
  destruct (Hdom _ _ Hk) as [u Hu].
  exists k, u. do 2 (split; [assumption|]). split.
  - unfold chat_messages. apply last_snoc.
  - exact (chat_step groq_env num_tokens ainvoke s s1 "" sp k u Hc Hk Hu).
Qed.

Lemma state_AB_wf : wf state_AB.
Proof.
  split; [simpl; lia|].
  intros i k Hk. destruct i as [|[|i]]; simpl in Hk; try discriminate;
    injection Hk as <-; eexists; reflexivity.
Qed.

Lemma chat_empty_prompt_delegated_witness :
  wf state_AB /\
  _check_and_switch_key None state_AB = (inr tt, state_AB) /\
  exists k u,
    api_keys state_AB !! current_index state_AB = Some k /\
    usage_tracker state_AB !! k = Some u /\
    last (chat_messages "" None) = Some (HumanMessage "") /\
    chat None (fun _ _ => 1) (fun _ _ => inr "ok") "" None state_AB =
    match (fun _ _ => inr "ok") (client state_AB) (chat_messages "" None)
          : exn + string with
    | inl e => (inl e, state_AB)
    | inr r =>
        (inr r, set_usage_tracker
                  (<[k := u + ((fun _ _ => 1) (client state_AB)
                                 (chat_messages "" None) + word_count r)]>
                     (usage_tracker state_AB)) state_AB)
    end.
Proof.
  assert (Hc : _check_and_switch_key None state_AB = (inr tt, state_AB))
    by reflexivity.
  split; [exact state_AB_wf|]. split; [exact Hc|].
  exact (chat_empty_prompt_delegated None (fun _ _ => 1) (fun _ _ => inr "ok")
           state_AB state_AB None state_AB_wf Hc).
Defined.

(** ** C8: delegate failures *)

(** C8: when the delegate raises, [chat] raises the same exception with
    no retry and no further rotation: the object is left as the quota
    check left it, with every usage entry unchanged. *)
Theorem chat_delegate_failure (groq_env : option string)
    (num_tokens : Client -> list message -> Z)
    (ainvoke : Client -> list message -> exn + string)
    (s s1 : GroqModel) (prompt : string) (sp : option string) (e : exn) :
  _check_and_switch_key groq_env s = (inr tt, s1) ->
  ainvoke (client s1) (chat_messages prompt sp) = inl e ->
  chat groq_env num_tokens ainvoke prompt sp s = (inl e, s1) /\
  usage_tracker s1 = usage_tracker s.
Proof.
  intros Hc Ha. split.
  - unfold chat, get_remaining_tokens, get_token_count. py_unfold.
    rewrite Hc, Ha. reflexivity.
  - exact (proj1 (proj2 (check_and_switch_key_frame _ _ _ _ Hc))).
Qed.

(** A delegate whose every call raises. *)
Definition failing_delegate : Client -> list message -> exn + string :=
  fun _ _ => inl (ProviderError "rate limited").

Lemma chat_delegate_failure_witness :
  _check_and_switch_key None state_AB_low = (inr tt, state_AB_rotated) /\
  failing_delegate (client state_AB_rotated)
    (chat_messages "hello" None) = inl (ProviderError "rate limited") /\
  chat None (fun _ _ => 1) failing_delegate
    "hello" None state_AB_low
  = (inl (ProviderError "rate limited"), state_AB_rotated) /\
  usage_tracker state_AB_rotated = usage_tracker state_AB_low.
Proof.
  assert (Hc : _check_and_switch_key None state_AB_low = (inr tt, state_AB_rotated))
    by reflexivity.
  split; [exact Hc|]. split; [reflexivity|].
  exact (chat_delegate_failure None (fun _ _ => 1)
           failing_delegate
           state_AB_low state_AB_rotated "hello" None
           (ProviderError "rate limited") Hc eq_refl).
Defined.

(** ** Construction *)

Lemma split_comma_not_nil (r : string) : split_comma r <> [].
Proof.
  destruct r as [|c r']; simpl; [discriminate|].
  destruct (Ascii.eqb c ","%char); [discriminate|].
  destruct (split_comma r'); discriminate.
Qed.

Lemma init_some (groq_env : option string) (r : string) :
  r <> EmptyString ->
  exists k0 rest,
    map strip (split_comma r) = k0 :: rest /\
    __init__ groq_env (Some r) =
    match ChatGroq groq_env groq_model_name k0 with
    | inl e => inl e
    | inr c =>
        inr (mkGroqModel (k0 :: rest) 0 groq_model_name 8192 c
               (list_to_map (map (fun k => (k, 0)) (k0 :: rest))))
    end.
Proof.
  intros Hr.
  destruct (map strip (split_comma r)) as [|k0 rest] eqn:E.
  - apply map_eq_nil in E. destruct (split_comma_not_nil r E).
  - exists k0, rest. split; [reflexivity|].
    destruct r as [|c r']; [congruence|].
    unfold __init__. cbv zeta iota. rewrite E. reflexivity.
Qed.

Lemma init_inr (groq_env raw : option string) (s : GroqModel) :
  __init__ groq_env raw = inr s ->
  exists r k0 rest c,
    raw = Some r /\ map strip (split_comma r) = k0 :: rest /\
    ChatGroq groq_env groq_model_name k0 = inr c /\
    s = mkGroqModel (k0 :: rest) 0 groq_model_name 8192 c
          (list_to_map (map (fun k => (k, 0)) (k0 :: rest))).
Proof.
  intros H. destruct raw as [r|]; [|discriminate].
  destruct r as [|ch r']; [discriminate|].
  destruct (init_some groq_env (String ch r') ltac:(discriminate))
    as (k0 & rest & E & Hinit).
  rewrite Hinit in H.
  destruct (ChatGroq groq_env groq_model_name k0) as [e|c] eqn:Hc; [discriminate|].
  injection H as <-. exists (String ch r'), k0, rest, c. auto.
Qed.

(** [{key: 0 for key in api_keys}]. *)
Lemma usage_init_lookup (keys : list string) (k : string) :
  (list_to_map (map (fun k => (k, 0)) keys) : gmap string Z) !! k
  = if decide (k ∈ keys) then Some 0 else None.
Proof.
  induction keys as [|a l IH]; simpl.
  - apply lookup_empty.
  - destruct (decide (a = k)) as [->|Hne].
    + rewrite lookup_insert_eq, decide_True; [reflexivity|].
      apply elem_of_cons. auto.
    + rewrite lookup_insert_ne by exact Hne. rewrite IH.
      destruct (decide (k ∈ l)) as [Hin|Hnin].
      * rewrite decide_True; [reflexivity|]. apply elem_of_cons. auto.
      * rewrite decide_False; [reflexivity|].
        apply not_elem_of_cons. split; [congruence|exact Hnin].
Qed.

(** C6 (counterexample): with [GROQ_API_KEYS=",keyA"] the key list
    ["", "keyA"] is not empty, yet with [GROQ_API_KEY] unset the
    construction fails: [ChatGroq] raises [GroqError] on the empty first
    key. *)
Lemma init_first_key_empty_raises :
  map strip (split_comma ",keyA") = [""; "keyA"] /\
  __init__ None (Some ",keyA") = inl (GroqError groq_missing_key_msg).
Proof. split; reflexivity. Qed.

(** C6 (amended): construction raises [ValueError] exactly when
    [GROQ_API_KEYS] is unset or empty.  Otherwise it builds the client
    for the first stripped key [k0]: when [k0] is empty and
    [GROQ_API_KEY] is unset this raises [GroqError] and no object is
    built; in every other case construction succeeds with the cursor on
    [k0], the client built for [k0] (bound to [k0] itself when it is not
    empty), and a usage entry of 0 for every key and for nothing else. *)
Theorem init_spec (groq_env raw : option string) :
  match raw with
  | None | Some EmptyString =>
      exists msg, __init__ groq_env raw = inl (ValueError msg)
  | Some r =>
      exists k0 rest,
        map strip (split_comma r) = k0 :: rest /\
        match ChatGroq groq_env groq_model_name k0 with
        | inl e =>
            __init__ groq_env raw = inl e /\ k0 = EmptyString /\
            groq_env = None /\ e = GroqError groq_missing_key_msg
        | inr c =>
            exists s,
              __init__ groq_env raw = inr s /\
              current_index s = 0%nat /\
              api_keys s = k0 :: rest /\
              client s = c /\
              (k0 <> EmptyString -> c = mkClient groq_model_name k0) /\
              forall k, usage_tracker s !! k =
                        if decide (k ∈ api_keys s) then Some 0 else None
        end
  end.
Proof.
  destruct raw as [r|]; [|eexists; reflexivity].
  destruct r as [|ch r']; [eexists; reflexivity|].
  destruct (init_some groq_env (String ch r') ltac:(discriminate))
    as (k0 & rest & E & Hinit).
  exists k0, rest. split; [exact E|]. rewrite Hinit.
  destruct (ChatGroq groq_env groq_model_name k0) as [e|c] eqn:Hc.
  - destruct (ChatGroq_error _ _ _ _ Hc) as (-> & -> & ->).
    repeat split; reflexivity.
  - eexists. split; [reflexivity|]. split; [reflexivity|].
    split; [reflexivity|]. split; [reflexivity|]. split.
    + intros Hne. rewrite ChatGroq_key in Hc by exact Hne.
      injection Hc as <-. reflexivity.
    + intros k. apply usage_init_lookup.
Qed.

(** C10 (counterexample): [GROQ_API_KEYS=","] gives the pool ["", ""],
    and with [GROQ_API_KEY] unset the construction raises [GroqError]
    instead of succeeding. *)
Lemma init_comma_raises :
  map strip (split_comma ",") = [""; ""] /\
  __init__ None (Some ",") = inl (GroqError groq_missing_key_msg).
Proof. split; reflexivity. Qed.

(** C10 (amended): construction raises [ValueError] exactly for an
    unset or empty [GROQ_API_KEYS].  For any other value the pool is the
    comma-separated pieces with surrounding whitespace stripped, which is
    never empty and may hold empty keys; construction succeeds with that
    pool unless its first key is empty and [GROQ_API_KEY] is unset, in
    which case it raises [GroqError] (so "," and " " fail there, and
    succeed when [GROQ_API_KEY] is set). *)
Theorem init_raw_keys_parsing (groq_env : option string) :
  (forall raw : option string,
     match raw with
     | None | Some EmptyString =>
         exists msg, __init__ groq_env raw = inl (ValueError msg)
     | Some r =>
         map strip (split_comma r) <> [] /\
         match groq_env, map strip (split_comma r) with
         | None, EmptyString :: _ =>
             __init__ groq_env raw = inl (GroqError groq_missing_key_msg)
         | _, _ =>
             exists s, __init__ groq_env raw = inr s /\
                       api_keys s = map strip (split_comma r)
         end
     end) /\
  __init__ None (Some ",") = inl (GroqError groq_missing_key_msg) /\
  __init__ None (Some " ") = inl (GroqError groq_missing_key_msg) /\
  (forall env_key, exists s,
     __init__ (Some env_key) (Some ",") = inr s /\ api_keys s = [""; ""]) /\
  (forall env_key, exists s,
     __init__ (Some env_key) (Some " ") = inr s /\ api_keys s = [""]).
Proof.
  split.
  - intros raw. destruct raw as [r|]; [|eexists; reflexivity].
    destruct r as [|ch r']; [eexists; reflexivity|].
    destruct (init_some groq_env (String ch r') ltac:(discriminate))
      as (k0 & rest & E & Hinit).
    rewrite E, Hinit. split; [discriminate|].
    destruct groq_env as [ek|]; destruct k0 as [|a k0']; cbv iota beta;
      try (eexists; split; [reflexivity|reflexivity]); reflexivity.
  - split; [reflexivity|]. split; [reflexivity|].
    split; intros ek; eexists; split; reflexivity.
Qed.

(** ** Reachable objects *)

(** The public calls a caller can make on a constructed object. *)
Inductive op :=
| OpChat (prompt : string) (system_prompt : option string)
| OpCheckAndSwitchKey
| OpGetTokenCount (messages : list message)
| OpGetRemainingTokens (messages : list message).

Section Reachable.

Variable groq_env : option string.
Variable num_tokens : Client -> list message -> Z.
Variable ainvoke : Client -> list message -> exn + string.

(** The object after a call; a raised exception leaves the object with
    the mutations made before it. *)
Definition run_op (o : op) (s : GroqModel) : GroqModel :=
  match o with
  | OpChat p sp => snd (chat groq_env num_tokens ainvoke p sp s)
  | OpCheckAndSwitchKey => snd (_check_and_switch_key groq_env s)
  | OpGetTokenCount ms => snd (get_token_count num_tokens ms s)
  | OpGetRemainingTokens ms => snd (get_remaining_tokens num_tokens ms s)
  end.

(** Objects built by [__init__] from [raw] and any sequence of calls. *)
Inductive reachable (raw : option string) : GroqModel -> Prop :=
| reachable_init s : __init__ groq_env raw = inr s -> reachable raw s
| reachable_step o s : reachable raw s -> reachable raw (run_op o s).

Lemma run_op_preserves (o : op) (s : GroqModel) :
  api_keys (run_op o s) = api_keys s /\
  model_name (run_op o s) = model_name s /\
  context_limit (run_op o s) = context_limit s /\
  (wf s -> wf (run_op o s)).
Proof.
  destruct o as [p sp| |ms|ms]; simpl.
  - destruct (chat groq_env num_tokens ainvoke p sp s) as [r s'] eqn:H. simpl.
    exact (chat_preserves _ _ _ _ _ _ _ _ H).
  - destruct (_check_and_switch_key groq_env s) as [r s1] eqn:H. simpl.
    destruct (check_and_switch_key_frame _ _ _ _ H) as (Hk & _ & Hm & Hc).
    split; [exact Hk|]. split; [exact Hm|]. split; [exact Hc|].
    intros Hwf. exact (check_and_switch_key_wf_any _ _ _ _ Hwf H).
  - auto.
  - auto.
Qed.

Lemma init_wf (raw : option string) (s : GroqModel) :
  __init__ groq_env raw = inr s ->
  wf s /\ context_limit s = 8192 /\ model_name s = groq_model_name.
Proof.
  intros H. destruct (init_inr _ _ _ H) as (r & k0 & rest & c & _ & _ & _ & ->).
  split; [split|split; reflexivity].
  - simpl. lia.
  - intros i k Hk. cbn [api_keys] in Hk.
    change (is_Some ((list_to_map (map (fun k => (k, 0)) (k0 :: rest))
                      : gmap string Z) !! k)).
    rewrite usage_init_lookup.
    rewrite decide_True; [eexists; reflexivity|].
    eapply list_elem_of_lookup_2. exact Hk.
Qed.

Lemma reachable_inv (raw : option string) (s : GroqModel) :
  reachable raw s ->
  wf s /\ context_limit s = 8192 /\ model_name s = groq_model_name /\
  exists s0, __init__ groq_env raw = inr s0 /\ api_keys s = api_keys s0.
Proof.
  induction 1 as [s H|o s _ IH].
  - destruct (init_wf _ _ H) as (Hwf & Hctx & Hm). eauto 6.
  - destruct IH as (Hwf & Hctx & Hm & s0 & Hs0 & Hk).
    destruct (run_op_preserves o s) as (Hk' & Hm' & Hc' & Hw').
    split; [exact (Hw' Hwf)|]. split; [congruence|]. split; [congruence|].
    exists s0. split; [exact Hs0|]. congruence.
Qed.

(** Every call on a well-formed object leaves the object of at most one
    quota check, possibly with a charge added to the usage entry of the
    key under the cursor. *)
Lemma run_op_shape (o : op) (s : GroqModel) :
  wf s ->
  exists s1,
    api_keys s1 = api_keys s /\ usage_tracker s1 = usage_tracker s /\
    model_name s1 = model_name s /\ wf s1 /\
    (s1 = s \/ exists r1, _check_and_switch_key groq_env s = (r1, s1)) /\
    (run_op o s = s1 \/
     exists k u ms r,
       api_keys s1 !! current_index s1 = Some k /\
       usage_tracker s !! k = Some u /\
       run_op o s =
       set_usage_tracker
         (<[k := u + (num_tokens (client s) ms + word_count r)]>
            (usage_tracker s1)) s1).
Proof.
  intros Hwf. destruct o as [p sp| |ms|ms].
  - simpl. destruct (chat groq_env num_tokens ainvoke p sp s) as [[e|r] s'] eqn:H;
      simpl.
    + destruct (chat_fail_state _ _ _ _ _ _ _ _ H) as [r1 Hc].
      destruct (check_and_switch_key_frame _ _ _ _ Hc) as (Hk & Hu & Hm & _).
      exists s'. do 3 (split; [assumption|]).
      split; [exact (check_and_switch_key_wf_any _ _ _ _ Hwf Hc)|].
      split; [right; eauto|left; reflexivity].
    + destruct (chat_success_inv _ _ _ _ _ _ _ _ H)
        as (s1 & k & u & Hc & Hk & Hu & _ & ->).
      destruct (check_and_switch_key_frame _ _ _ _ Hc) as (Hks & Hus & Hm & _).
      exists s1. do 3 (split; [assumption|]).
      split; [exact (check_and_switch_key_wf_any _ _ _ _ Hwf Hc)|].
      split; [right; eauto|].
      right. exists k, u, (chat_messages p sp), r.
      split; [exact Hk|]. split; [congruence|reflexivity].
  - simpl. destruct (_check_and_switch_key groq_env s) as [r1 s1] eqn:Hc. simpl.
    destruct (check_and_switch_key_frame _ _ _ _ Hc) as (Hk & Hu & Hm & _).
    exists s1. do 3 (split; [assumption|]).
    split; [exact (check_and_switch_key_wf_any _ _ _ _ Hwf Hc)|].
    split; [right; eauto|left; reflexivity].
  - exists s. repeat split; auto; destruct Hwf; assumption.
  - exists s. repeat split; auto; destruct Hwf; assumption.
Qed.

End Reachable.

(** When a client can be built for every key of the pool, the client of
    a reachable object is the one built for the key under the cursor. *)
Lemma reachable_client_built (groq_env : option string)
    (num_tokens : Client -> list message -> Z)
    (ainvoke : Client -> list message -> exn + string)
    (raw : option string) (s : GroqModel) :
  reachable groq_env num_tokens ainvoke raw s ->
  (forall k, k ∈ api_keys s ->
     exists c, ChatGroq groq_env groq_model_name k = inr c) ->
  exists k, api_keys s !! current_index s = Some k /\
            ChatGroq groq_env groq_model_name k = inr (client s).
Proof.
  induction 1 as [s H|o s Hr IH]; intros Hall.
  - destruct (init_inr _ _ _ H) as (r & k0 & rest & c & _ & _ & Hc & ->).
    exists k0. split; [reflexivity|exact Hc].
  - destruct (reachable_inv _ _ _ _ _ Hr) as (Hwf & _ & Hname & _).
    destruct (run_op_preserves groq_env num_tokens ainvoke o s) as (Hkeys & _).
    rewrite Hkeys in Hall.
    destruct (run_op_shape groq_env num_tokens ainvoke o s Hwf)
      as (s1 & Hk1 & Hus1 & Hm1 & _ & Hs1 & Hrun).
    assert (Hs1' : exists k1, api_keys s1 !! current_index s1 = Some k1 /\
                     ChatGroq groq_env groq_model_name k1 = inr (client s1)).
    { destruct Hs1 as [-> | [r1 Hc]]; [exact (IH Hall)|].
      assert (Hall' : forall k, k ∈ api_keys s ->
                 exists c, ChatGroq groq_env (model_name s) k = inr c)
        by (rewrite Hname; exact Hall).
      destruct (check_built groq_env s Hwf Hall') as (s2 & Hc2 & Hs2).
      rewrite Hc in Hc2. injection Hc2 as _ <-.
      destruct Hs2 as [-> | (k' & c & Hk' & Hg & ->)]; [exact (IH Hall)|].
      exists k'. split; [exact Hk'|]. rewrite Hname in Hg. exact Hg. }
    destruct Hrun as [-> | (k1 & u & ms & r & _ & _ & ->)]; exact Hs1'.
Qed.

(** ** C5: remaining context tokens *)

(** C5: on every constructed object, [get_remaining_tokens(messages)]
    returns [8192 - get_token_count(messages)] exactly, without raising
    and without touching the object, whatever the sign of the result. *)
Theorem remaining_tokens_identity (groq_env : option string)
    (num_tokens : Client -> list message -> Z)
    (ainvoke : Client -> list message -> exn + string)
    (raw : option string) (s : GroqModel) (messages : list message) :
  reachable groq_env num_tokens ainvoke raw s ->
  get_token_count num_tokens messages s
  = (inr (num_tokens (client s) messages), s) /\
  get_remaining_tokens num_tokens messages s
  = (inr (8192 - num_tokens (client s) messages), s).
Proof.
  intros Hr. destruct (reachable_inv _ _ _ _ _ Hr) as (_ & Hctx & _).
  split; [reflexivity|].
  unfold get_remaining_tokens, get_token_count. py_unfold.
  rewrite Hctx. reflexivity.
Qed.

(** A token counter that reports more than the context window. *)
Definition big_counter : Client -> list message -> Z := fun _ _ => 10000.

Definition echo_delegate : Client -> list message -> exn + string :=
  fun _ _ => inr "ok".

Lemma remaining_tokens_identity_witness :
  reachable None big_counter echo_delegate (Some "keyA,keyB") state_AB /\
  get_token_count big_counter [HumanMessage "hello"] state_AB
  = (inr (big_counter (client state_AB) [HumanMessage "hello"]), state_AB) /\
  get_remaining_tokens big_counter [HumanMessage "hello"] state_AB
  = (inr (8192 - big_counter (client state_AB) [HumanMessage "hello"]), state_AB).
Proof.
  assert (Hr : reachable None big_counter echo_delegate (Some "keyA,keyB") state_AB)
    by exact (reachable_init _ _ _ _ _ (init_AB None)).
  split; [exact Hr|].
  exact (remaining_tokens_identity None big_counter echo_delegate _ state_AB
           [HumanMessage "hello"] Hr).
Defined.

Example remaining_tokens_negative :
  get_remaining_tokens big_counter [HumanMessage "hello"] state_AB
  = (inr (-1808), state_AB).
Proof. reflexivity. Qed.

(** ** C9: the cursor invariant and the fixed pool *)

(** C9: on every object reachable from construction through [chat],
    [_check_and_switch_key], [get_token_count] and [get_remaining_tokens]
    (also when a call raised), [0 <= current_index < len(api_keys)], and
    [api_keys] is exactly the list built by [__init__]. *)
Theorem reachable_cursor_in_range (groq_env : option string)
    (num_tokens : Client -> list message -> Z)
    (ainvoke : Client -> list message -> exn + string)
    (raw : option string) (s : GroqModel) :
  reachable groq_env num_tokens ainvoke raw s ->
  (0 <= current_index s < length (api_keys s))%nat /\
  exists s0, __init__ groq_env raw = inr s0 /\ api_keys s = api_keys s0.
Proof.
  intros Hr.
  destruct (reachable_inv _ _ _ _ _ Hr) as ([Hlt _] & _ & _ & Hs0).
  split; [lia|exact Hs0].
Qed.

(** [state_AB] after one successful [chat("hi")]. *)
Definition state_AB_chatted : GroqModel :=
  run_op None big_counter echo_delegate (OpChat "hi" None)
    (run_op None big_counter echo_delegate OpCheckAndSwitchKey state_AB).

Lemma reachable_cursor_in_range_witness :
  reachable None big_counter echo_delegate (Some "keyA,keyB") state_AB_chatted /\
  (0 <= current_index state_AB_chatted < length (api_keys state_AB_chatted))%nat /\
  exists s0, __init__ None (Some "keyA,keyB") = inr s0 /\
             api_keys state_AB_chatted = api_keys s0.
Proof.
  assert (Hr : reachable None big_counter echo_delegate (Some "keyA,keyB")
                 state_AB_chatted).
  { apply reachable_step, reachable_step, reachable_init. exact (init_AB None). }
  split; [exact Hr|].
  exact (reachable_cursor_in_range None big_counter echo_delegate _ _ Hr).
Defined.

(** ** C4: cyclic rotation *)

(** C4: from cursor 0, [len(api_keys)] forced rotations, each called on
    the object the previous one left, bring the cursor back to 0 and
    keep the pool; when a client can be built for every key (no empty
    key, or [GROQ_API_KEY] set) they also raise nothing.  On a
    constructed object with a single key, a rotation raises nothing,
    rebuilds the client from that same key and leaves the object
    unchanged, however often it is repeated. *)
Theorem rotation_cyclic (groq_env : option string)
    (num_tokens : Client -> list message -> Z)
    (ainvoke : Client -> list message -> exn + string)
    (raw : option string) (s : GroqModel) :
  api_keys s <> [] ->
  current_index s = 0%nat ->
  current_index (switch_calls groq_env (length (api_keys s)) s) = 0%nat /\
  api_keys (switch_calls groq_env (length (api_keys s)) s) = api_keys s /\
  ((forall k, k ∈ api_keys s ->
      exists c, ChatGroq groq_env (model_name s) k = inr c) ->
   switch_n groq_env (length (api_keys s)) s
   = (inr tt, switch_calls groq_env (length (api_keys s)) s)) /\
  (forall k, reachable groq_env num_tokens ainvoke raw s ->
     api_keys s = [k] ->
     ChatGroq groq_env (model_name s) k = inr (client s) /\
     _switch_key groq_env s = (inr tt, s) /\
     forall m, switch_n groq_env m s = (inr tt, s)).
Proof.
  intros Hne H0.
  assert (Hlt : (current_index s < length (api_keys s))%nat).
  { rewrite H0. destruct (api_keys s); [congruence|simpl; lia]. }
  destruct (switch_calls_spec groq_env (length (api_keys s)) s Hlt)
    as (Hidx & Hkeys & _ & Hrun).
  split; [rewrite Hidx, H0; apply Nat.Div0.mod_same|].
  split; [exact Hkeys|]. split; [exact Hrun|].
  intros k Hr Hk.
  destruct (reachable_inv _ _ _ _ _ Hr) as (_ & _ & Hname & s0 & Hinit & Hk0).
  destruct (init_inr _ _ _ Hinit) as (r & k0 & rest & c0 & _ & _ & Hc0 & ->).
  cbn [api_keys] in Hk0. rewrite Hk in Hk0. injection Hk0 as <- <-.
  assert (Hall : forall k1, k1 ∈ api_keys s ->
            exists c, ChatGroq groq_env groq_model_name k1 = inr c).
  { rewrite Hk. intros k1 Hk1. apply list_elem_of_singleton in Hk1. subst. eauto. }
  destruct (reachable_client_built _ _ _ _ _ Hr Hall) as (k1 & Hk1 & Hcl).
  rewrite Hk, H0 in Hk1. cbn in Hk1. injection Hk1 as <-.
  rewrite Hname.
  assert (Hsw : _switch_key groq_env s = (inr tt, s)).
  { assert (Hk0' : api_keys s !! current_index s = Some k)
      by (rewrite Hk, H0; reflexivity).
    destruct (switch_key_step groq_env s k Hk0') as (k' & Hk' & Hsw).
    rewrite Hk, H0 in Hk'. cbn in Hk'. injection Hk' as <-.
    rewrite Hsw, Hname, Hcl.
    destruct s as [keys i name ctx cl us]; cbn in *; subst; reflexivity. }
  split; [exact Hcl|]. split; [exact Hsw|].
  intros m. induction m as [|m IHm]; [reflexivity|].
  cbn [switch_n]. unfold mbind_M at 1. rewrite Hsw. exact IHm.
Qed.

Lemma rotation_cyclic_witness :
  api_keys state_only <> [] /\ current_index state_only = 0%nat /\
  current_index (switch_calls None (length (api_keys state_only)) state_only)
  = 0%nat /\
  api_keys (switch_calls None (length (api_keys state_only)) state_only)
  = api_keys state_only /\
  ((forall k, k ∈ api_keys state_only ->
      exists c, ChatGroq None (model_name state_only) k = inr c) ->
   switch_n None (length (api_keys state_only)) state_only
   = (inr tt, switch_calls None (length (api_keys state_only)) state_only)) /\
  (forall k, reachable None big_counter echo_delegate (Some "onlyKey") state_only ->
     api_keys state_only = [k] ->
     ChatGroq None (model_name state_only) k = inr (client state_only) /\
     _switch_key None state_only = (inr tt, state_only) /\
     forall m, switch_n None m state_only = (inr tt, state_only)).
Proof.
  split; [discriminate|]. split; [reflexivity|].
  apply (rotation_cyclic None big_counter echo_delegate (Some "onlyKey") state_only);
    [discriminate|reflexivity].
Defined.

(** * Further properties of [GroqModel] *)

(** ** X1: the client is bound to the key under the cursor *)

(** X1: when no key of the pool is empty, on every reachable object the
    model name is "llama-3.1-70b-versatile" and the client is a ChatGroq
    client for that model bound to [api_keys[current_index]]. *)
Theorem reachable_client_bound (groq_env : option string)
    (num_tokens : Client -> list message -> Z)
    (ainvoke : Client -> list message -> exn + string)
    (raw : option string) (s : GroqModel) :
  reachable groq_env num_tokens ainvoke raw s ->
  (forall k, k ∈ api_keys s -> k <> EmptyString) ->
  model_name s = groq_model_name /\
  exists k, api_keys s !! current_index s = Some k /\
            client s = mkClient groq_model_name k.
Proof.
  intros Hr Hne. destruct (reachable_inv _ _ _ _ _ Hr) as (_ & _ & Hname & _).
  split; [exact Hname|].
  assert (Hall : forall k, k ∈ api_keys s ->
            exists c, ChatGroq groq_env groq_model_name k = inr c).
  { intros k Hk. rewrite ChatGroq_key by exact (Hne k Hk). eauto. }
  destruct (reachable_client_built _ _ _ _ _ Hr Hall) as (k & Hk & Hc).
  exists k. split; [exact Hk|].
  rewrite ChatGroq_key in Hc by (apply Hne; eapply list_elem_of_lookup_2; exact Hk).
  injection Hc as <-. reflexivity.
Qed.

Lemma state_AB_keys_nonempty :
  forall k, k ∈ ["keyA"; "keyB"] -> k <> EmptyString.
Proof.
  intros k Hk. apply elem_of_cons in Hk as [->|Hk]; [discriminate|].
  apply list_elem_of_singleton in Hk. subst. discriminate.
Qed.

Lemma reachable_client_bound_witness :
  reachable None big_counter echo_delegate (Some "keyA,keyB") state_AB_chatted /\
  (forall k, k ∈ api_keys state_AB_chatted -> k <> EmptyString) /\
  model_name state_AB_chatted = groq_model_name /\
  exists k, api_keys state_AB_chatted !! current_index state_AB_chatted = Some k /\
            client state_AB_chatted = mkClient groq_model_name k.
Proof.
  assert (Hr : reachable None big_counter echo_delegate (Some "keyA,keyB")
                 state_AB_chatted).
  { apply reachable_step, reachable_step, reachable_init. exact (init_AB None). }
  assert (Hne : forall k, k ∈ api_keys state_AB_chatted -> k <> EmptyString)
    by exact state_AB_keys_nonempty.
  split; [exact Hr|]. split; [exact Hne|].
  exact (reachable_client_bound None big_counter echo_delegate _ _ Hr Hne).
Defined.

(** ** X2: the usage dictionary has exactly the keys of the pool *)

(** X2: on every reachable object a key has a usage entry exactly when
    it is in [api_keys]: [chat] never adds an entry for another key and
    no call removes one. *)
Theorem reachable_usage_domain (groq_env : option string)
    (num_tokens : Client -> list message -> Z)
    (ainvoke : Client -> list message -> exn + string)
    (raw : option string) (s : GroqModel) :
  reachable groq_env num_tokens ainvoke raw s ->
  forall k, is_Some (usage_tracker s !! k) <-> k ∈ api_keys s.
Proof.
  induction 1 as [s H|o s Hr IH]; intros k.
  - destruct (init_inr _ _ _ H) as (r & k0 & rest & c & _ & _ & _ & ->).
    change (is_Some ((list_to_map (map (fun k => (k, 0)) (k0 :: rest))
                      : gmap string Z) !! k) <-> k ∈ k0 :: rest).
    rewrite usage_init_lookup.
    destruct (decide (k ∈ k0 :: rest)); split; intros Hx; auto.
    + destruct Hx as [? Hx]. discriminate.
    + contradiction.
  - destruct (reachable_inv _ _ _ _ _ Hr) as (Hwf & _).
    destruct (run_op_shape groq_env num_tokens ainvoke o s Hwf)
      as (s1 & Hkeys & Hus & _ & _ & _ & Hrun).
    destruct Hrun as [-> | (k1 & u & ms & r & Hk1 & _ & ->)].
    + rewrite Hus, Hkeys. apply IH.
    + simpl. rewrite Hus, Hkeys. rewrite lookup_insert_is_Some'. split.
      * intros [<- | Hx]; [|apply IH, Hx].
        rewrite <- Hkeys. eapply list_elem_of_lookup_2. exact Hk1.
      * intros Hx. right. apply IH, Hx.
Qed.

Lemma reachable_usage_domain_witness :
  reachable None big_counter echo_delegate (Some "keyA,keyB") state_AB_chatted /\
  (forall k, is_Some (usage_tracker state_AB_chatted !! k)
             <-> k ∈ api_keys state_AB_chatted).
Proof.
  assert (Hr : reachable None big_counter echo_delegate (Some "keyA,keyB")
                 state_AB_chatted).
  { apply reachable_step, reachable_step, reachable_init. exact (init_AB None). }
  split; [exact Hr|].
  exact (reachable_usage_domain None big_counter echo_delegate _ _ Hr).
Defined.

(** ** X3: usage counters never decrease *)

Lemma word_count_nonneg (r : string) : 0 <= word_count r.
Proof. unfold word_count. lia. Qed.

Lemma run_op_usage_grows (groq_env : option string)
    (num_tokens : Client -> list message -> Z)
    (ainvoke : Client -> list message -> exn + string)
    (o : op) (s : GroqModel) :
  (forall c ms, 0 <= num_tokens c ms) ->
  wf s ->
  forall k v, usage_tracker s !! k = Some v ->
  exists v', usage_tracker (run_op groq_env num_tokens ainvoke o s) !! k = Some v'
             /\ v <= v'.
Proof.
  intros Hnt Hwf k v Hv.
  destruct (run_op_shape groq_env num_tokens ainvoke o s Hwf)
    as (s1 & _ & Hus & _ & _ & _ & Hrun).
  destruct Hrun as [-> | (k1 & u & ms & r & _ & Hu & ->)].
  - exists v. rewrite Hus. split; [exact Hv|lia].
  - simpl. rewrite Hus. destruct (decide (k1 = k)) as [<-|Hne].
    + rewrite lookup_insert_eq. eexists. split; [reflexivity|].
      rewrite Hu in Hv. injection Hv as <-.
      pose proof (Hnt (client s) ms). pose proof (word_count_nonneg r). lia.
    + rewrite lookup_insert_ne by exact Hne. exists v. split; [exact Hv|lia].
Qed.

(** X3: when the token counter never reports a negative count, every
    usage counter of a reachable object is non-negative, and no call
    ([chat], [_check_and_switch_key], [get_token_count],
    [get_remaining_tokens]) decreases or drops any counter. *)
Theorem reachable_usage_monotone (groq_env : option string)
    (num_tokens : Client -> list message -> Z)
    (ainvoke : Client -> list message -> exn + string)
    (raw : option string) (s : GroqModel) :
  (forall c ms, 0 <= num_tokens c ms) ->
  reachable groq_env num_tokens ainvoke raw s ->
  (forall k v, usage_tracker s !! k = Some v -> 0 <= v) /\
  (forall o k v, usage_tracker s !! k = Some v ->
     exists v', usage_tracker (run_op groq_env num_tokens ainvoke o s) !! k = Some v'
                /\ v <= v').
Proof.
  intros Hnt Hr.
  assert (Hstep : forall s0, reachable groq_env num_tokens ainvoke raw s0 ->
            forall o k v, usage_tracker s0 !! k = Some v ->
            exists v', usage_tracker (run_op groq_env num_tokens ainvoke o s0) !! k
                       = Some v' /\ v <= v').
  { intros s0 Hr0 o. destruct (reachable_inv _ _ _ _ _ Hr0) as (Hwf & _).
    exact (run_op_usage_grows groq_env num_tokens ainvoke o s0 Hnt Hwf). }
  split; [|exact (Hstep s Hr)].
  induction Hr as [s H|o s Hr IH]; intros k v Hv.
  - destruct (init_inr _ _ _ H) as (r & k0 & rest & c & _ & _ & _ & ->).
    change (((list_to_map (map (fun k => (k, 0)) (k0 :: rest))
              : gmap string Z) !! k) = Some v) in Hv.
    rewrite usage_init_lookup in Hv.
    destruct (decide _); [injection Hv as <-; lia|discriminate].
  - destruct (usage_tracker s !! k) as [v0|] eqn:Hv0.
    + pose proof (IH _ _ Hv0) as Hpos.
      destruct (Hstep s Hr o k v0 Hv0) as [v' [Hv' Hle]].
      rewrite Hv in Hv'. injection Hv' as <-. lia.
    + destruct (reachable_inv _ _ _ _ _ Hr) as (Hwf & _).
      destruct (run_op_shape groq_env num_tokens ainvoke o s Hwf)
        as (s1 & _ & Hus & _ & _ & _ & Hrun).
      destruct Hrun as [Hrun | (k1 & u & ms & r & _ & Hu & Hrun)];
        rewrite Hrun in Hv; simpl in Hv; rewrite Hus in Hv.
      * congruence.
      * destruct (decide (k1 = k)) as [<-|Hne]; [congruence|].
        rewrite lookup_insert_ne in Hv by exact Hne. congruence.
Qed.

Lemma reachable_usage_monotone_witness :
  (forall c ms, 0 <= big_counter c ms) /\
  reachable None big_counter echo_delegate (Some "keyA,keyB") state_AB_chatted /\
  (forall k v, usage_tracker state_AB_chatted !! k = Some v -> 0 <= v) /\
  (forall o k v, usage_tracker state_AB_chatted !! k = Some v ->
     exists v', usage_tracker (run_op None big_counter echo_delegate o state_AB_chatted)
                  !! k = Some v' /\ v <= v').
Proof.
  assert (Hnt : forall c ms, 0 <= big_counter c ms)
    by (intros; unfold big_counter; lia).
  assert (Hr : reachable None big_counter echo_delegate (Some "keyA,keyB")
                 state_AB_chatted).
  { apply reachable_step, reachable_step, reachable_init. exact (init_AB None). }
  split; [exact Hnt|]. split; [exact Hr|].
  exact (reachable_usage_monotone None big_counter echo_delegate _ _ Hnt Hr).
Defined.

(** ** X4: what [chat] can raise *)

(** X4: on every reachable object, when [chat] raises, either the quota
    check raised the [GroqError] of building the client for the next
    key and the object is as that check left it, or the check succeeded
    and the exception is the one [ainvoke] raised on the client it left:
    [chat] never raises [IndexError], [KeyError] or [ZeroDivisionError]
    there. *)
Theorem reachable_chat_raises_only_delegate (groq_env : option string)
    (num_tokens : Client -> list message -> Z)
    (ainvoke : Client -> list message -> exn + string)
    (raw : option string) (s s' : GroqModel)
    (prompt : string) (sp : option string) (e : exn) :
  reachable groq_env num_tokens ainvoke raw s ->
  chat groq_env num_tokens ainvoke prompt sp s = (inl e, s') ->
  (_check_and_switch_key groq_env s = (inr tt, s') /\
   ainvoke (client s') (chat_messages prompt sp) = inl e) \/
  (e = GroqError groq_missing_key_msg /\
   _check_and_switch_key groq_env s = (inl e, s')).
Proof.
  intros Hr H. destruct (reachable_inv _ _ _ _ _ Hr) as (Hwf & _).
  destruct (check_and_switch_key_wf groq_env s Hwf)
    as (r & s1 & Hc & [Hlt Hdom] & [-> | ->]).
  - destruct (lookup_lt_is_Some_2 _ _ Hlt) as [k Hk].
    destruct (Hdom _ _ Hk) as [u Hu].
    rewrite (chat_step groq_env num_tokens ainvoke s s1 prompt sp k u Hc Hk Hu) in H.
    destruct (ainvoke (client s1) (chat_messages prompt sp)) eqn:Ha;
      [|discriminate].
    injection H as -> <-. left. auto.
  - rewrite (chat_check_raises groq_env num_tokens ainvoke s s1 prompt sp _ Hc) in H.
    injection H as <- <-. right. auto.
Qed.

(** A token counter that reports almost a whole quota per call. *)
Definition heavy_counter : Client -> list message -> Z := fun _ _ => 999000.

(** [state_A_empty] after one successful [chat("hi")] that used up the
    quota of "keyA". *)
Definition state_A_empty_used : GroqModel :=
  run_op None heavy_counter echo_delegate (OpChat "hi" None) state_A_empty.

Lemma reachable_chat_raises_only_delegate_witness :
  reachable None heavy_counter echo_delegate (Some "keyA,") state_A_empty_used /\
  chat None heavy_counter echo_delegate "hello" None state_A_empty_used
  = (inl (GroqError groq_missing_key_msg), set_current_index 1 state_A_empty_used) /\
  ((_check_and_switch_key None state_A_empty_used
    = (inr tt, set_current_index 1 state_A_empty_used) /\
    echo_delegate (client (set_current_index 1 state_A_empty_used))
      (chat_messages "hello" None) = inl (GroqError groq_missing_key_msg)) \/
   (GroqError groq_missing_key_msg = GroqError groq_missing_key_msg /\
    _check_and_switch_key None state_A_empty_used
    = (inl (GroqError groq_missing_key_msg), set_current_index 1 state_A_empty_used))).
Proof.
  assert (Hr : reachable None heavy_counter echo_delegate (Some "keyA,")
                 state_A_empty_used).
  { apply reachable_step, reachable_init. exact (init_A_empty None). }
  assert (H : chat None heavy_counter echo_delegate "hello" None state_A_empty_used
              = (inl (GroqError groq_missing_key_msg),
                 set_current_index 1 state_A_empty_used)) by reflexivity.
  split; [exact Hr|]. split; [exact H|].
  exact (reachable_chat_raises_only_delegate None heavy_counter echo_delegate _
           _ _ "hello" None _ Hr H).
Defined.

(** ** X5: an exhausted pool keeps rotating *)

(** [n] calls of [_check_and_switch_key] made one after the other by a
    caller, each on the object the previous one left. *)
Fixpoint check_calls (groq_env : option string) (n : nat) (s : GroqModel)
  : GroqModel :=
  match n with
  | O => s
  | S n' => check_calls groq_env n' (snd (_check_and_switch_key groq_env s))
  end.

(** [n] consecutive calls of [_check_and_switch_key] in one computation,
    which stops at the first exception. *)
Fixpoint check_n (groq_env : option string) (n : nat) : M unit :=
  match n with
  | O => mret_M tt
  | S n' => let! _ := _check_and_switch_key groq_env in check_n groq_env n'
  end.

(** Every key of the pool has less than 3000 tokens of soft quota left. *)
Definition all_keys_low (s : GroqModel) : Prop :=
  forall (i : nat) (k : string) (u : Z),
    api_keys s !! i = Some k -> usage_tracker s !! k = Some u ->
    1000000 - u < 3000.

(** X5: when every key's quota is low, the check never signals
    exhaustion: [m] consecutive checks move the cursor [m] steps around
    the pool and leave the keys and usage counters alone, also when
    some of them raised; when a client can be built for every key they
    raise nothing. *)
Theorem exhausted_pool_keeps_rotating (groq_env : option string) (m : nat) :
  forall (s : GroqModel),
  wf s -> all_keys_low s ->
  current_index (check_calls groq_env m s)
    = ((current_index s + m) mod length (api_keys s))%nat /\
  api_keys (check_calls groq_env m s) = api_keys s /\
  usage_tracker (check_calls groq_env m s) = usage_tracker s /\
  ((forall k, k ∈ api_keys s ->
      exists c, ChatGroq groq_env (model_name s) k = inr c) ->
   check_n groq_env m s = (inr tt, check_calls groq_env m s)).
Proof.
  induction m as [|m IH]; intros s Hwf Hlow.
  - cbn [check_calls check_n]. destruct Hwf as [Hlt _].
    rewrite Nat.add_0_r, Nat.mod_small by exact Hlt. auto.
  - pose proof Hwf as [Hlt Hdom].
    destruct (lookup_lt_is_Some_2 _ _ Hlt) as [k Hk].
    destruct (Hdom _ _ Hk) as [u Hu].
    pose proof (check_step groq_env s k u Hk Hu) as Hc.
    replace (1000000 - u <? 3000) with true in Hc
      by (symmetry; apply Z.ltb_lt; exact (Hlow _ _ _ Hk Hu)).
    destruct Hc as [k' (Hk' & Hrun)].
    assert (Hs1 : api_keys (snd (_check_and_switch_key groq_env s)) = api_keys s /\
                  usage_tracker (snd (_check_and_switch_key groq_env s))
                  = usage_tracker s /\
                  model_name (snd (_check_and_switch_key groq_env s)) = model_name s /\
                  current_index (snd (_check_and_switch_key groq_env s))
                  = ((current_index s + 1) mod length (api_keys s))%nat /\
                  wf (snd (_check_and_switch_key groq_env s))).
    { rewrite Hrun. destruct (ChatGroq groq_env (model_name s) k') as [e|c].
      - split_and!; try reflexivity. exact (proj1 (advance_wf s (client s) Hwf)).
      - split_and!; try reflexivity. exact (proj2 (advance_wf s c Hwf)). }
    destruct Hs1 as (Hk1 & Hus1 & Hm1 & Hi1 & Hwf1).
    assert (Hlow1 : all_keys_low (snd (_check_and_switch_key groq_env s))).
    { intros i k0 u0 Hi Hu0. rewrite Hk1 in Hi. rewrite Hus1 in Hu0.
      exact (Hlow _ _ _ Hi Hu0). }
    destruct (IH _ Hwf1 Hlow1) as (Hidx & Hkeys & Hus & Hrun').
    cbn [check_calls].
    split; [rewrite Hidx, Hi1, Hk1, Nat.Div0.add_mod_idemp_l; f_equal; lia|].
    split; [congruence|]. split; [congruence|].
    intros Hall. cbn [check_n]. unfold mbind_M at 1.
    destruct (Hall k' (list_elem_of_lookup_2 _ _ _ Hk')) as [c Hg].
    assert (Es : _check_and_switch_key groq_env s
                 = (inr tt, set_client c (advance s)))
      by (rewrite Hrun, Hg; reflexivity).
    rewrite Es. rewrite Es in Hrun'. apply Hrun'.
    rewrite Es in Hk1, Hm1. rewrite Hk1, Hm1. exact Hall.
Qed.

(** [state_AB] with both keys past the soft quota. *)
Definition state_AB_exhausted : GroqModel :=
  set_usage_tracker (<["keyB" := 999500]> (usage_tracker state_AB_low)) state_AB_low.

Lemma exhausted_pool_keeps_rotating_witness :
  wf state_AB_exhausted /\ all_keys_low state_AB_exhausted /\
  current_index (check_calls None 5 state_AB_exhausted)
    = ((current_index state_AB_exhausted + 5)
         mod length (api_keys state_AB_exhausted))%nat /\
  api_keys (check_calls None 5 state_AB_exhausted) = api_keys state_AB_exhausted /\
  usage_tracker (check_calls None 5 state_AB_exhausted)
    = usage_tracker state_AB_exhausted /\
  ((forall k, k ∈ api_keys state_AB_exhausted ->
      exists c, ChatGroq None (model_name state_AB_exhausted) k = inr c) ->
   check_n None 5 state_AB_exhausted
   = (inr tt, check_calls None 5 state_AB_exhausted)).
Proof.
  assert (Hwf : wf state_AB_exhausted).
  { split; [simpl; lia|].
    intros i k Hk. destruct i as [|[|i]]; simpl in Hk; try discriminate;
      injection Hk as <-; eexists; reflexivity. }
  assert (Hlow : all_keys_low state_AB_exhausted).
  { intros i k u Hk Hu. destruct i as [|[|i]]; simpl in Hk; try discriminate;
      injection Hk as <-; vm_compute in Hu; injection Hu as <-; lia. }
  split; [exact Hwf|]. split; [exact Hlow|].
  exact (exhausted_pool_keeps_rotating None 5 state_AB_exhausted Hwf Hlow).
Defined.

(** ** X6: a low key is not charged when the pool has distinct keys *)

Lemma next_index_differs (i n : nat) :
  (2 <= n)%nat -> (i < n)%nat -> ((i + 1) mod n)%nat <> i.
Proof.
  intros H2 Hi.
  destruct (Nat.eq_dec (i + 1)%nat n) as [Heq|Hne].
  - rewrite Heq, Nat.Div0.mod_same. lia.
  - rewrite Nat.mod_small by lia. lia.
Qed.

(** X6: with at least two pairwise distinct keys, a successful [chat]
    that starts on a key with less than 3000 tokens of quota left moves
    the cursor one step and charges the next key: the low key's counter
    is left unchanged. *)
Theorem distinct_keys_low_key_not_charged (groq_env : option string)
    (num_tokens : Client -> list message -> Z)
    (ainvoke : Client -> list message -> exn + string)
    (s s' : GroqModel) (prompt : string) (sp : option string) (r : string)
    (k0 : string) (u0 : Z) :
  NoDup (api_keys s) ->
  (2 <= length (api_keys s))%nat ->
  api_keys s !! current_index s = Some k0 ->
  usage_tracker s !! k0 = Some u0 ->
  1000000 - u0 < 3000 ->
  chat groq_env num_tokens ainvoke prompt sp s = (inr r, s') ->
  usage_tracker s' !! k0 = Some u0 /\
  current_index s' = ((current_index s + 1) mod length (api_keys s))%nat.
Proof.
  intros Hnd H2 Hk0 Hu0 Hlow H.
  destruct (chat_success_inv _ _ _ _ _ _ _ _ H)
    as (s1 & k & u & Hc & Hk & _ & _ & ->).
  pose proof (check_step groq_env s k0 u0 Hk0 Hu0) as Hspec.
  replace (1000000 - u0 <? 3000) with true in Hspec
    by (symmetry; apply Z.ltb_lt; exact Hlow).
  destruct Hspec as [k' (Hk' & Hrun)].
  rewrite Hc in Hrun.
  destruct (ChatGroq groq_env (model_name s) k') as [e|c]; [discriminate|].
  injection Hrun as ->.
  cbn [advance set_client set_current_index set_usage_tracker
       current_index api_keys usage_tracker] in Hk |- *.
  split; [|reflexivity].
  rewrite lookup_insert_ne; [exact Hu0|].
  intros ->. apply (next_index_differs (current_index s) (length (api_keys s)) H2).
  - apply lookup_lt_Some in Hk0. exact Hk0.
  - exact (NoDup_lookup _ _ _ _ Hnd Hk Hk0).
Qed.

Lemma distinct_keys_low_key_not_charged_witness :
  NoDup (api_keys state_AB_low) /\
  (2 <= length (api_keys state_AB_low))%nat /\
  api_keys state_AB_low !! current_index state_AB_low = Some "keyA" /\
  usage_tracker state_AB_low !! "keyA" = Some 999000 /\
  1000000 - 999000 < 3000 /\
  chat None big_counter echo_delegate "hello" None state_AB_low
  = (inr "ok", snd (chat None big_counter echo_delegate "hello" None state_AB_low)) /\
  usage_tracker (snd (chat None big_counter echo_delegate "hello" None state_AB_low))
    !! "keyA" = Some 999000 /\
  current_index (snd (chat None big_counter echo_delegate "hello" None state_AB_low))
  = ((current_index state_AB_low + 1) mod length (api_keys state_AB_low))%nat.
Proof.
  assert (Hnd : NoDup (api_keys state_AB_low)).
  { simpl. constructor.
    - rewrite list_elem_of_singleton. discriminate.
    - constructor; [apply not_elem_of_nil|constructor]. }
  assert (H : chat None big_counter echo_delegate "hello" None state_AB_low
              = (inr "ok", snd (chat None big_counter echo_delegate "hello" None
                                  state_AB_low))) by reflexivity.
  do 6 (split; [first [exact Hnd | exact H | simpl; lia | reflexivity]|]).
  exact (distinct_keys_low_key_not_charged None big_counter echo_delegate
           state_AB_low _ "hello" None "ok" "keyA" 999000
           Hnd ltac:(simpl; lia) eq_refl eq_refl ltac:(lia) H).
Defined.

(** ** X7: splitting the raw key string loses nothing *)

Lemma concat_comma_cons_char (c : Ascii.ascii) (p : string) (ps : list string) :
  String.concat "," (String c p :: ps) = String c (String.concat "," (p :: ps)).
Proof. destruct ps; reflexivity. Qed.

(** X7: [",".join(raw.split(","))] gives [raw] back: the pieces [__init__]
    strips are exactly the comma-separated fields of the raw string. *)
Theorem split_comma_join (raw : string) :
  String.concat "," (split_comma raw) = raw.
Proof.
  induction raw as [|c rest IH]; [reflexivity|].
  pose proof (split_comma_not_nil rest) as Hne.
  simpl. destruct (Ascii.eqb c ","%char) eqn:Ec.
  - apply Ascii.eqb_eq in Ec. subst c.
    destruct (split_comma rest) as [|p ps]; [congruence|].
    rewrite <- IH. reflexivity.
  - destruct (split_comma rest) as [|p ps]; [congruence|].
    rewrite concat_comma_cons_char, IH. reflexivity.
Qed.

(** ** X8: no key of the pool contains a comma *)

Fixpoint no_comma (s : string) : bool :=
  match s with
  | EmptyString => true
  | String c rest => negb (Ascii.eqb c ","%char) && no_comma rest
  end.

Lemma split_comma_no_comma (r : string) :
  Forall (fun p => no_comma p = true) (split_comma r).
Proof.
  induction r as [|c rest IH]; simpl.
  - repeat constructor.
  - destruct (Ascii.eqb c ","%char) eqn:Ec.
    + constructor; [reflexivity|exact IH].
    + destruct (split_comma rest) as [|p ps]; [repeat constructor; simpl; rewrite Ec; reflexivity|].
      inversion IH as [|? ? Hp Hps]; subst.
      constructor; [simpl; rewrite Ec, Hp; reflexivity|exact Hps].
Qed.

Lemma lstrip_no_comma (s : string) : no_comma s = true -> no_comma (lstrip s) = true.
Proof.
  induction s as [|c rest IH]; simpl; [auto|].
  intros H. destruct (is_space c); [|exact H].
  apply IH. apply andb_prop in H. tauto.
Qed.

Lemma rstrip_no_comma (s : string) : no_comma s = true -> no_comma (rstrip s) = true.
Proof.
  induction s as [|c rest IH]; simpl; [auto|].
  intros H. apply andb_prop in H. destruct H as [Hc Hr].
  specialize (IH Hr).
  destruct (rstrip rest) as [|c' r'] eqn:E.
  - destruct (is_space c); simpl; [reflexivity|rewrite Hc; reflexivity].
  - simpl. rewrite Hc. exact IH.
Qed.

(** X8: no key of a constructed pool contains a comma. *)
Theorem init_keys_no_comma (groq_env raw : option string) (s : GroqModel) :
  __init__ groq_env raw = inr s ->
  Forall (fun k => no_comma k = true) (api_keys s).
Proof.
  intros H. destruct (init_inr _ _ _ H) as (r & k0 & rest & cl & _ & E & _ & ->).
  simpl. rewrite <- E. apply Forall_map.
  eapply Forall_impl; [apply split_comma_no_comma|].
  intros p Hp. unfold strip. apply rstrip_no_comma, lstrip_no_comma, Hp.
Qed.

Lemma init_keys_no_comma_witness :
  __init__ None (Some " a, b ,c") = inr (mkGroqModel ["a"; "b"; "c"] 0 groq_model_name 8192
       (mkClient groq_model_name "a")
       (list_to_map (map (fun k => (k, 0)) ["a"; "b"; "c"]))) /\
  Forall (fun k => no_comma k = true) ["a"; "b"; "c"].
Proof.
  assert (H : __init__ None (Some " a, b ,c") = inr (mkGroqModel ["a"; "b"; "c"] 0
       groq_model_name 8192 (mkClient groq_model_name "a")
       (list_to_map (map (fun k => (k, 0)) ["a"; "b"; "c"])))) by reflexivity.
  split; [exact H|].
  exact (init_keys_no_comma _ _ _ H).
Defined.

(** ** X9: the word count used for usage is additive *)

Lemma split_ws_nonspace_head (c : Ascii.ascii) (r : string) :
  is_space c = false -> exists w ws, split_ws (String c r) = w :: ws.
Proof.
  intros Hc. simpl. rewrite Hc.
  destruct r as [|c' r']; [eauto|].
  destruct (is_space c'); [eauto|].
  destruct (split_ws (String c' r')); eauto.
Qed.

Lemma split_ws_app_space (a b : string) :
  split_ws (String.append a (String " "%char b)) = split_ws a ++ split_ws b.
Proof.
  induction a as [|c rest IH]; [reflexivity|].
  simpl. rewrite IH.
  destruct (is_space c) eqn:Hc; [reflexivity|].
  destruct rest as [|c' r'].
  - reflexivity.
  - change (String.append (String c' r') (String " "%char b))
      with (String c' (String.append r' (String " "%char b))).
    cbv iota. destruct (is_space c') eqn:Hc'; [reflexivity|].
    destruct (split_ws_nonspace_head c' r' Hc') as (w & ws & ->).
    reflexivity.
Qed.

(** X9: the response word count [len(content.split())] that [chat] adds
    to the usage counter is additive over texts joined by a space. *)
Theorem word_count_app_space (a b : string) :
  word_count (String.append a (String " "%char b)) = word_count a + word_count b.
Proof.
  unfold word_count. rewrite split_ws_app_space, length_app. lia.
Qed.

(** ** X10: the keys of the pool are trimmed *)

Definition first_char (s : string) : option Ascii.ascii :=
  match s with
  | EmptyString => None
  | String c _ => Some c
  end.

Fixpoint last_char (s : string) : option Ascii.ascii :=
  match s with
  | EmptyString => None
  | String c EmptyString => Some c
  | String _ rest => last_char rest
  end.

Lemma lstrip_first_char (s : string) (c : Ascii.ascii) :
  first_char (lstrip s) = Some c -> is_space c = false.
Proof.
  induction s as [|c0 rest IH]; simpl; [discriminate|].
  destruct (is_space c0) eqn:Hc0; [exact IH|].
  simpl. intros H. injection H as <-. exact Hc0.
Qed.

Lemma rstrip_first_char (s : string) (c : Ascii.ascii) :
  first_char s = Some c -> is_space c = false ->
  first_char (rstrip s) = Some c.
Proof.
  destruct s as [|c0 rest]; simpl; [discriminate|].
  intros H Hc. injection H as ->.
  destruct (rstrip rest); [rewrite Hc|]; reflexivity.
Qed.

Lemma rstrip_last_char (s : string) (c : Ascii.ascii) :
  last_char (rstrip s) = Some c -> is_space c = false.
Proof.
  induction s as [|c0 rest IH]; simpl; [discriminate|].
  destruct (rstrip rest) as [|c1 r1] eqn:E.
  - destruct (is_space c0) eqn:Hc0; simpl; [discriminate|].
    intros H. injection H as <-. exact Hc0.
  - exact IH.
Qed.

(** X10: every key of a constructed pool is trimmed: it neither starts
    nor ends with a whitespace character. *)
Theorem init_keys_trimmed (groq_env raw : option string) (s : GroqModel) :
  __init__ groq_env raw = inr s ->
  Forall (fun k => (forall c, first_char k = Some c -> is_space c = false) /\
                   (forall c, last_char k = Some c -> is_space c = false))
         (api_keys s).
Proof.
  intros H. destruct (init_inr _ _ _ H) as (r & k0 & rest & cl & _ & E & _ & ->).
  simpl. rewrite <- E. apply Forall_map, Forall_forall.
  intros p _. unfold strip. split.
  - intros c Hc.
    destruct (first_char (lstrip p)) as [c'|] eqn:Hl.
    + pose proof (lstrip_first_char p c' Hl) as Hs.
      rewrite (rstrip_first_char _ _ Hl Hs) in Hc. injection Hc as <-. exact Hs.
    + destruct (lstrip p); [discriminate|discriminate].
  - intros c Hc. exact (rstrip_last_char _ _ Hc).
Qed.

Lemma init_keys_trimmed_witness :
  __init__ None (Some " a, b ,c") = inr (mkGroqModel ["a"; "b"; "c"] 0 groq_model_name 8192
       (mkClient groq_model_name "a")
       (list_to_map (map (fun k => (k, 0)) ["a"; "b"; "c"]))) /\
  Forall (fun k => (forall c, first_char k = Some c -> is_space c = false) /\
                   (forall c, last_char k = Some c -> is_space c = false))
         ["a"; "b"; "c"].
Proof.
  assert (H : __init__ None (Some " a, b ,c") = inr (mkGroqModel ["a"; "b"; "c"] 0
       groq_model_name 8192 (mkClient groq_model_name "a")
       (list_to_map (map (fun k => (k, 0)) ["a"; "b"; "c"])))) by reflexivity.
  split; [exact H|].
  exact (init_keys_trimmed _ _ _ H).
Defined.
